(** * ProHand client wrapper: readiness state machine, arity checks, status
      polling and handle lifetime

    Shallow embedding of [prohand_sdk/ProHandClient.hpp] (the C++ RAII
    wrapper), of the C interface [prohand_sdk.h] it is written against, and of
    the control flow of the streaming demos ([cyclic_motion.cpp],
    [kapandji.cpp], [test_hand.cpp]).

    Conventions
    - The shared library behind [prohand_sdk.h] is an interface ([Library]):
      every wrapper function is defined for an arbitrary implementation of it.
    - Time is the reading of [std::chrono::steady_clock] in microseconds, as an
      integer; the [double] second counts of the source (timeout 1.0, retry
      0.3, poll 0.05, settle 0.2) are the corresponding microsecond counts.
    - A C++ exception is the [Throw] result of a computation in the monad [M];
      the state reached before the throw is kept, as in C++.
    - Every call that crosses the C interface is recorded in a ghost [trace],
      so that "no transmission occurs" is a statement about the trace. *)

From Stdlib Require Import ZArith List Bool String Ascii Lia DecimalString.
Import ListNotations.
Local Open Scope Z_scope.

(** * The program *)

(** ** Data of the C interface *)

(** A [float] is only ever copied by the wrapper: it is its bit pattern. *)
Definition float32 : Type := Z.

(** [ProHandClientHandle*]: [None] is the null pointer. *)
Definition ProHandClientHandle : Type := nat.
Definition pointer : Type := option ProHandClientHandle.

(** [ProHandResult] *)
Definition PROHAND_SUCCESS : Z := 0.
Definition PROHAND_ERROR_NULL : Z := -1.
Definition PROHAND_ERROR_CONNECTION : Z := -2.
Definition PROHAND_ERROR_INVALID_ARGUMENT : Z := -3.
Definition PROHAND_ERROR_NOT_CONNECTED : Z := -4.
Definition PROHAND_ERROR_UNSUPPORTED : Z := -5.
Definition PROHAND_ERROR_OTHER : Z := -99.

(** [ProHandStatusInfo]: the two arrays are memory indexed by offset. *)
Record ProHandStatusInfo : Type := {
  is_valid : Z;
  status_type : Z;
  rotary_positions : nat -> float32;
  linear_positions : nat -> float32
}.

(** [HandStatus] of the wrapper. *)
Record HandStatus : Type := {
  isValid : bool;
  statusType : Z;
  rotaryPositions : list float32;
  linearPositions : list float32
}.

(** The functions of [prohand_sdk.h] that take a handle and return an [int],
    with the arguments the wrapper passes. *)
Inductive ApiCall : Type :=
| prohand_client_is_connected
| prohand_send_ping
| prohand_set_streaming_mode (enabled : Z)
| prohand_is_running_state
| prohand_send_rotary_commands (positions torques : list float32)
| prohand_send_rotary_streams (positions torques : list float32)
| prohand_send_linear_commands (positions speeds : list float32)
| prohand_send_linear_streams (positions speeds : list float32)
| prohand_send_wrist_command (positions : list float32) (use_profiler : bool)
| prohand_send_wrist_streams (positions : list float32) (use_profiler : bool)
| prohand_send_hand_command (positions : list float32) (torque : float32)
| prohand_send_hand_streams (positions : list float32) (torque : float32)
| prohand_set_wrist_limits (max_velocity max_acceleration max_jerk : list float32)
| prohand_send_zero_calibration (mask : list Z).

(** The shared library, the clock and the sleeping thread: the environment
    of the wrapper. [E] is the state of that environment. *)
Class Library (E : Type) : Type := {
  steady_clock_now : E -> Z;
  sleep_for : Z -> E -> E;
  prohand_client_create : string -> string -> string -> string -> E -> pointer * E;
  prohand_client_destroy : pointer -> E -> E;
  prohand_call : pointer -> ApiCall -> E -> Z * E;
  prohand_try_recv_status : pointer -> E -> (Z * ProHandStatusInfo) * E
}.

(** ** Ghost trace *)

Inductive Event : Type :=
| EvCreate (p : pointer)
| EvDestroy (p : pointer)
| EvCall (p : pointer) (call : ApiCall) (result : Z)
| EvRecv (p : pointer) (result : Z)
| EvSleep (d : Z).

Record World (E : Type) : Type := mkWorld {
  env : E;
  trace : list Event
}.
Arguments mkWorld {E} _ _.
Arguments env {E} _.
Arguments trace {E} _.

(** ** Exceptions and the monad of the wrapper *)

Inductive SdkException : Type :=
| SdkError (message : string).

Inductive Result (A : Type) : Type :=
| Ok (a : A)
| Throw (e : SdkException).
Arguments Ok {A} _.
Arguments Throw {A} _.

Definition M (E A : Type) : Type := World E -> Result A * World E.

Definition ret {E A} (a : A) : M E A := fun w => (Ok a, w).
Definition throw {E A} (e : SdkException) : M E A := fun w => (Throw e, w).
Definition bind {E A B} (m : M E A) (k : A -> M E B) : M E B :=
  fun w => match m w with
           | (Ok a, w') => k a w'
           | (Throw e, w') => (Throw e, w')
           end.

Notation "x <- m ;; k" := (bind m (fun x => k))
  (at level 61, m at next level, right associativity).
Notation "m ;;; k" := (bind m (fun _ => k))
  (at level 61, right associativity).

Section Wrapper.
Context {E : Type} `{Library E}.

(** Crossing the C interface: the call is made and logged. *)
Definition call (p : pointer) (c : ApiCall) : M E Z :=
  fun w => let (r, s') := prohand_call p c (env w) in
           (Ok r, mkWorld s' (trace w ++ [EvCall p c r])).

Definition recv (p : pointer) : M E (Z * ProHandStatusInfo) :=
  fun w => let (r, s') := prohand_try_recv_status p (env w) in
           (Ok r, mkWorld s' (trace w ++ [EvRecv p (fst r)])).

Definition create (a b c d : string) : M E pointer :=
  fun w => let (p, s') := prohand_client_create a b c d (env w) in
           (Ok p, mkWorld s' (trace w ++ [EvCreate p])).

Definition destroy (p : pointer) : M E unit :=
  fun w => (Ok tt, mkWorld (prohand_client_destroy p (env w))
                           (trace w ++ [EvDestroy p])).

(** [std::this_thread::sleep_for] *)
Definition sleep (d : Z) : M E unit :=
  fun w => (Ok tt, mkWorld (sleep_for d (env w)) (trace w ++ [EvSleep d])).

(** [std::chrono::steady_clock::now()] *)
Definition clock_now (w : World E) : Z := steady_clock_now (env w).

(** ** class ProHandClient *)

Record ProHandClient : Type := mkClient {
  handle_ : pointer;
  commandEndpoint_ : string;
  statusEndpoint_ : string
}.

Definition is_null (p : pointer) : bool :=
  match p with None => true | Some _ => false end.

Definition checkHandle (c : ProHandClient) : M E unit :=
  if is_null (handle_ c)
  then throw (SdkError "Client handle is null")
  else ret tt.

(** [std::to_string(int)] *)
Definition to_string (z : Z) : string := NilZero.string_of_int (Z.to_int z).

Definition checkResult (result : Z) (operation : string) : M E unit :=
  if result =? PROHAND_SUCCESS then ret tt
  else
    let error := (operation ++ " failed: ")%string in
    let error :=
      if result =? PROHAND_ERROR_NULL then (error ++ "Null pointer error")%string
      else if result =? PROHAND_ERROR_CONNECTION then (error ++ "Connection error")%string
      else if result =? PROHAND_ERROR_INVALID_ARGUMENT then (error ++ "Invalid argument")%string
      else if result =? PROHAND_ERROR_NOT_CONNECTED then (error ++ "Not connected")%string
      else (error ++ "Unknown error (" ++ to_string result ++ ")")%string in
    throw (SdkError error).

(** [vector::size() != n] *)
Definition size_ne {A} (v : list A) (n : nat) : bool := negb (Nat.eqb (List.length v) n).

(** The constructor. *)
Definition ProHandClient_new (commandEndpoint statusEndpoint
    handStreamingEndpoint wristStreamingEndpoint : string) : M E ProHandClient :=
  h <- create commandEndpoint statusEndpoint handStreamingEndpoint wristStreamingEndpoint ;;
  if is_null h then throw (SdkError "Failed to create ProHand client")
  else ret (mkClient h commandEndpoint statusEndpoint).

Definition setWristLimits (c : ProHandClient)
    (max_velocity max_acceleration max_jerk : list float32) : M E unit :=
  checkHandle c ;;;
  if size_ne max_velocity 2 || size_ne max_acceleration 2 || size_ne max_jerk 2
  then throw (SdkError "wrist limits must have 2 elements each")
  else
    result <- call (handle_ c) (prohand_set_wrist_limits max_velocity max_acceleration max_jerk) ;;
    checkResult result "setWristLimits".

Definition isConnected (c : ProHandClient) : M E bool :=
  if is_null (handle_ c) then ret false
  else
    r <- call (handle_ c) prohand_client_is_connected ;;
    ret (negb (r =? 0)).

Definition sendPing (c : ProHandClient) : M E unit :=
  checkHandle c ;;;
  result <- call (handle_ c) prohand_send_ping ;;
  checkResult result "sendPing".

Definition setStreamingMode (c : ProHandClient) (enabled : bool) : M E unit :=
  checkHandle c ;;;
  result <- call (handle_ c) (prohand_set_streaming_mode (if enabled then 1 else 0)) ;;
  checkResult result "setStreamingMode".

Definition isRunningState (c : ProHandClient) : M E bool :=
  checkHandle c ;;;
  r <- call (handle_ c) prohand_is_running_state ;;
  ret (r =? 1).

(** *** waitForStreamingReady *)

(** Microseconds in the [double] second counts of the source. *)
Definition ms (n : Z) : Z := n * 1000.
Definition settleDelay : Z := ms 200.
Definition pollInterval : Z := ms 50.
Definition default_timeout : Z := ms 1000.
Definition default_retryInterval : Z := ms 300.

(** How one turn of [while (true)] is left: by [return true] or by [break]. *)
Inductive LoopExit : Type :=
| ReturnTrue
| Break.

(** The [while (true)] loop (lines 228-270). [fuel] bounds the number of
    turns; [None] means the bound was reached. [start] and [lastRetry] are the
    local variables of the same names. *)
Fixpoint poll_loop (fuel : nat) (c : ProHandClient) (timeout retryInterval : Z)
    (start lastRetry : Z) (w : World E) : option (Result LoopExit * World E) :=
  match fuel with
  | O => None
  | Datatypes.S fuel' =>
    let now_ := clock_now w in
    let elapsed := now_ - start in
    if elapsed >=? timeout then Some (Ok Break, w)
    else
      match isRunningState c w with
      | (Throw e, w1) => Some (Throw e, w1)
      | (Ok true, w1) => Some (Ok ReturnTrue, w1)
      | (Ok false, w1) =>
        let elapsedSinceRetry := now_ - lastRetry in
        let '(lastRetry', w2) :=
          if elapsedSinceRetry >=? retryInterval then
            match setStreamingMode c true w1 with
            | (Ok _, w2) => (now_, w2)
            | (Throw _, w2) => (lastRetry, w2)   (* catch (...) { } *)
            end
          else (lastRetry, w1) in
        let remaining := timeout - elapsed in
        if remaining >? 0 then
          match sleep (Z.min pollInterval remaining) w2 with
          | (_, w3) => poll_loop fuel' c timeout retryInterval start lastRetry' w3
          end
        else Some (Ok Break, w2)
      end
  end.

Definition waitForStreamingReady (fuel : nat) (c : ProHandClient)
    (timeout retryInterval : Z) (w : World E) : option (Result bool * World E) :=
  match checkHandle c w with
  | (Throw e, w0) => Some (Throw e, w0)
  | (Ok _, w0) =>
    match sendPing c w0 with
    | (Throw _, w1) => Some (Ok false, w1)     (* catch (...) { return false; } *)
    | (Ok _, w1) =>
      let start := clock_now w1 in
      let lastRetry := start in
      match sleep settleDelay w1 with
      | (_, w2) =>
        match poll_loop fuel c timeout retryInterval start lastRetry w2 with
        | None => None
        | Some (Throw e, w3) => Some (Throw e, w3)
        | Some (Ok ReturnTrue, w3) => Some (Ok true, w3)
        | Some (Ok Break, w3) => Some (isRunningState c w3)
        end
      end
    end
  end.

(** *** Pose commands *)

Definition sendRotaryCommands (c : ProHandClient) (positions torques : list float32) : M E unit :=
  checkHandle c ;;;
  if size_ne positions 16 || size_ne torques 16
  then throw (SdkError "positions and torques must have 16 elements")
  else
    result <- call (handle_ c) (prohand_send_rotary_commands positions torques) ;;
    checkResult result "sendRotaryCommands".

Definition sendLinearCommands (c : ProHandClient) (positions speeds : list float32) : M E unit :=
  checkHandle c ;;;
  if size_ne positions 2 || size_ne speeds 2
  then throw (SdkError "positions and speeds must have 2 elements")
  else
    result <- call (handle_ c) (prohand_send_linear_commands positions speeds) ;;
    checkResult result "sendLinearCommands".

Definition sendRotaryStreams (c : ProHandClient) (positions torques : list float32) : M E unit :=
  checkHandle c ;;;
  if size_ne positions 16 || size_ne torques 16
  then throw (SdkError "positions and torques must have 16 elements")
  else
    result <- call (handle_ c) (prohand_send_rotary_streams positions torques) ;;
    checkResult result "sendRotaryStreams".

Definition sendLinearStreams (c : ProHandClient) (positions speeds : list float32) : M E unit :=
  checkHandle c ;;;
  if size_ne positions 2 || size_ne speeds 2
  then throw (SdkError "positions and speeds must have 2 elements")
  else
    result <- call (handle_ c) (prohand_send_linear_streams positions speeds) ;;
    checkResult result "sendLinearStreams".

Definition sendWristCommands (c : ProHandClient) (positions : list float32)
    (use_profiler : bool) : M E unit :=
  checkHandle c ;;;
  if size_ne positions 2
  then throw (SdkError "positions must have 2 elements")
  else
    result <- call (handle_ c) (prohand_send_wrist_command positions use_profiler) ;;
    checkResult result "sendWristCommands".

Definition sendWristStreams (c : ProHandClient) (positions : list float32)
    (use_profiler : bool) : M E unit :=
  checkHandle c ;;;
  if size_ne positions 2
  then throw (SdkError "positions must have 2 elements")
  else
    result <- call (handle_ c) (prohand_send_wrist_streams positions use_profiler) ;;
    checkResult result "sendWristStreams".

(** The message of the 20-element check; its sign [×] is the two bytes
    195, 151 of UTF-8. *)
Definition hand_arity_message : string :=
  ("positions must have 20 elements (5 fingers "
   ++ String (ascii_of_nat 195) (String (ascii_of_nat 151) " 4 joints)"))%string.

Definition sendHandCommands (c : ProHandClient) (positions : list float32)
    (torque : float32) : M E unit :=
  checkHandle c ;;;
  if size_ne positions 20
  then throw (SdkError hand_arity_message)
  else
    result <- call (handle_ c) (prohand_send_hand_command positions torque) ;;
    checkResult result "sendHandCommands".

Definition sendHandStreams (c : ProHandClient) (positions : list float32)
    (torque : float32) : M E unit :=
  checkHandle c ;;;
  if size_ne positions 20
  then throw (SdkError hand_arity_message)
  else
    result <- call (handle_ c) (prohand_send_hand_streams positions torque) ;;
    checkResult result "sendHandStreams".

Definition sendZeroCalibration (c : ProHandClient) (mask : list bool) : M E unit :=
  checkHandle c ;;;
  if size_ne mask 16
  then throw (SdkError "mask must have 16 elements")
  else
    let intMask := map (fun i => if nth i mask false then 1 else 0) (seq 0 16) in
    result <- call (handle_ c) (prohand_send_zero_calibration intMask) ;;
    checkResult result "sendZeroCalibration".

(** *** tryRecvStatus *)

(** [vector::assign(first, first + n)] from an array *)
Definition assign (first : nat -> float32) (n : nat) : list float32 :=
  map first (seq 0 n).

Definition tryRecvStatus (c : ProHandClient) : M E (option HandStatus) :=
  checkHandle c ;;;
  r <- recv (handle_ c) ;;
  let result := fst r in
  let statusInfo := snd r in
  if result >? 0 then
    ret (Some {| isValid := negb (is_valid statusInfo =? 0);
                 statusType := status_type statusInfo;
                 rotaryPositions := assign (rotary_positions statusInfo) 16;
                 linearPositions := assign (linear_positions statusInfo) 2 |})
  else if result =? 0 then ret None
  else
    checkResult result "tryRecvStatus" ;;;
    ret None.

(** *** Lifetime: destructor and moves

    Client objects live at addresses; [this != &other] compares addresses. *)

Definition Heap : Type := nat -> ProHandClient.

Definition store (hp : Heap) (a : nat) (c : ProHandClient) : Heap :=
  fun x => if Nat.eqb x a then c else hp x.

(** [other.handle_ = nullptr] after its strings were moved out (a moved-from
    [std::string] is left empty by the common implementations). *)
Definition moved_from : ProHandClient := mkClient None EmptyString EmptyString.

(** [ProHandClient(ProHandClient &&other)], constructing the object at [this] *)
Definition move_construct (this other : nat) (hp : Heap) : M E Heap :=
  let o := hp other in
  let hp1 := store hp this (mkClient (handle_ o) (commandEndpoint_ o) (statusEndpoint_ o)) in
  ret (store hp1 other moved_from).

(** [operator=(ProHandClient &&other)] *)
Definition move_assign (this other : nat) (hp : Heap) : M E Heap :=
  if negb (Nat.eqb this other) then
    (if negb (is_null (handle_ (hp this))) then destroy (handle_ (hp this)) else ret tt) ;;;
    let o := hp other in
    let hp1 := store hp this (mkClient (handle_ o) (commandEndpoint_ o) (statusEndpoint_ o)) in
    ret (store hp1 other moved_from)
  else ret hp.

(** [~ProHandClient()] *)
Definition destructor (this : nat) (hp : Heap) : M E Heap :=
  if negb (is_null (handle_ (hp this))) then
    destroy (handle_ (hp this)) ;;;
    let t := hp this in
    ret (store hp this (mkClient None (commandEndpoint_ t) (statusEndpoint_ t)))
  else ret hp.

End Wrapper.

(** ** The public operations as data

    One constructor per public member function that is called on a client
    object, with its arguments; [invoke] dispatches to the member function. *)

Inductive Operation : Type :=
| OpSetWristLimits (max_velocity max_acceleration max_jerk : list float32)
| OpIsConnected
| OpSendPing
| OpSetStreamingMode (enabled : bool)
| OpIsRunningState
| OpWaitForStreamingReady (timeout retryInterval : Z)
| OpSendRotaryCommands (positions torques : list float32)
| OpSendLinearCommands (positions speeds : list float32)
| OpSendRotaryStreams (positions torques : list float32)
| OpSendLinearStreams (positions speeds : list float32)
| OpSendWristCommands (positions : list float32) (use_profiler : bool)
| OpSendWristStreams (positions : list float32) (use_profiler : bool)
| OpSendHandCommands (positions : list float32) (torque : float32)
| OpSendHandStreams (positions : list float32) (torque : float32)
| OpSendZeroCalibration (mask : list bool)
| OpTryRecvStatus.

Inductive Value : Type :=
| VVoid
| VBool (b : bool)
| VStatus (s : option HandStatus).

Section Invoke.
Context {E : Type} `{Library E}.

Definition returning {A} (f : A -> Value) (m : M E A) (w : World E)
  : option (Result Value * World E) :=
  match m w with
  | (Ok a, w') => Some (Ok (f a), w')
  | (Throw e, w') => Some (Throw e, w')
  end.

Definition void (_ : unit) : Value := VVoid.

Definition invoke (fuel : nat) (op : Operation) (c : ProHandClient) (w : World E)
  : option (Result Value * World E) :=
  match op with
  | OpSetWristLimits v a j => returning void (setWristLimits c v a j) w
  | OpIsConnected => returning VBool (isConnected c) w
  | OpSendPing => returning void (sendPing c) w
  | OpSetStreamingMode b => returning void (setStreamingMode c b) w
  | OpIsRunningState => returning VBool (isRunningState c) w
  | OpWaitForStreamingReady t r =>
      match waitForStreamingReady fuel c t r w with
      | None => None
      | Some (Ok b, w') => Some (Ok (VBool b), w')
      | Some (Throw e, w') => Some (Throw e, w')
      end
  | OpSendRotaryCommands p t => returning void (sendRotaryCommands c p t) w
  | OpSendLinearCommands p s => returning void (sendLinearCommands c p s) w
  | OpSendRotaryStreams p t => returning void (sendRotaryStreams c p t) w
  | OpSendLinearStreams p s => returning void (sendLinearStreams c p s) w
  | OpSendWristCommands p u => returning void (sendWristCommands c p u) w
  | OpSendWristStreams p u => returning void (sendWristStreams c p u) w
  | OpSendHandCommands p t => returning void (sendHandCommands c p t) w
  | OpSendHandStreams p t => returning void (sendHandStreams c p t) w
  | OpSendZeroCalibration m => returning void (sendZeroCalibration c m) w
  | OpTryRecvStatus => returning VStatus (tryRecvStatus c) w
  end.

End Invoke.

(** ** What the documentation asks of each operation *)

(** The number of elements the documentation of each pose command, of the
    zero calibration and of the wrist limits asks for. *)
Definition expected_arity (op : Operation) : option nat :=
  match op with
  | OpSendRotaryCommands _ _ | OpSendRotaryStreams _ _ => Some 16%nat
  | OpSendLinearCommands _ _ | OpSendLinearStreams _ _ => Some 2%nat
  | OpSendWristCommands _ _ | OpSendWristStreams _ _ => Some 2%nat
  | OpSendHandCommands _ _ | OpSendHandStreams _ _ => Some 20%nat
  | OpSendZeroCalibration _ => Some 16%nat
  | OpSetWristLimits _ _ _ => Some 2%nat
  | _ => None
  end.

(** The sizes of the arrays an operation is called with. *)
Definition input_sizes (op : Operation) : list nat :=
  match op with
  | OpSetWristLimits v a j => [List.length v; List.length a; List.length j]
  | OpSendRotaryCommands p t | OpSendRotaryStreams p t => [List.length p; List.length t]
  | OpSendLinearCommands p s | OpSendLinearStreams p s => [List.length p; List.length s]
  | OpSendWristCommands p _ | OpSendWristStreams p _ => [List.length p]
  | OpSendHandCommands p _ | OpSendHandStreams p _ => [List.length p]
  | OpSendZeroCalibration m => [List.length m]
  | _ => []
  end.

(** The message of the exception each size check throws. *)
Definition arity_message (op : Operation) : string :=
  match op with
  | OpSendRotaryCommands _ _ | OpSendRotaryStreams _ _ =>
      "positions and torques must have 16 elements"
  | OpSendLinearCommands _ _ | OpSendLinearStreams _ _ =>
      "positions and speeds must have 2 elements"
  | OpSendWristCommands _ _ | OpSendWristStreams _ _ => "positions must have 2 elements"
  | OpSendHandCommands _ _ | OpSendHandStreams _ _ => hand_arity_message
  | OpSendZeroCalibration _ => "mask must have 16 elements"
  | OpSetWristLimits _ _ _ => "wrist limits must have 2 elements each"
  | _ => EmptyString
  end.

(** The C function an operation ends in when its checks pass, for the
    operations that are one checked call. *)
Definition underlying (op : Operation) : option ApiCall :=
  match op with
  | OpSetWristLimits v a j => Some (prohand_set_wrist_limits v a j)
  | OpSendPing => Some prohand_send_ping
  | OpSetStreamingMode b => Some (prohand_set_streaming_mode (if b then 1 else 0))
  | OpSendRotaryCommands p t => Some (prohand_send_rotary_commands p t)
  | OpSendLinearCommands p s => Some (prohand_send_linear_commands p s)
  | OpSendRotaryStreams p t => Some (prohand_send_rotary_streams p t)
  | OpSendLinearStreams p s => Some (prohand_send_linear_streams p s)
  | OpSendWristCommands p u => Some (prohand_send_wrist_command p u)
  | OpSendWristStreams p u => Some (prohand_send_wrist_streams p u)
  | OpSendHandCommands p t => Some (prohand_send_hand_command p t)
  | OpSendHandStreams p t => Some (prohand_send_hand_streams p t)
  | OpSendZeroCalibration m =>
      Some (prohand_send_zero_calibration
              (map (fun i => if nth i m false then 1 else 0) (seq 0 16)))
  | OpIsConnected | OpIsRunningState | OpWaitForStreamingReady _ _ | OpTryRecvStatus => None
  end.

(** The operations that answer with a boolean where others would throw. *)
Definition answers_boolean (op : Operation) : bool :=
  match op with
  | OpIsConnected | OpIsRunningState | OpWaitForStreamingReady _ _ => true
  | _ => false
  end.

(** ** Clocks

    A clock is monotone when no call moves it back and a sleep of [d >= 0]
    lasts at least [d]. It is virtual-exact when calls take no time and a
    sleep lasts exactly as long as asked. *)

Class MonotoneClock (E : Type) `{Library E} : Prop := {
  sleep_at_least : forall d s, 0 <= d ->
    steady_clock_now s + d <= steady_clock_now (sleep_for d s);
  call_monotone : forall p c s,
    steady_clock_now s <= steady_clock_now (snd (prohand_call p c s))
}.

Class ExactClock (E : Type) `{Library E} : Prop := {
  sleep_exact : forall d s, 0 <= d ->
    steady_clock_now (sleep_for d s) = steady_clock_now s + d;
  call_instant : forall p c s,
    steady_clock_now (snd (prohand_call p c s)) = steady_clock_now s
}.

(** ** A simulated host

    Modelled from the spec: the host process behind the shared library is not
    part of the wrapper. This is the conforming mock host of the testable
    properties: a virtual clock that only sleeping advances, a command
    transport that may lose enable commands, a driver that reports Running
    once an enable command was delivered, and a queue of status messages. *)

Record Host : Type := mkHost {
  clock : Z;                          (* steady clock, microseconds *)
  ping_result : Z;                    (* what prohand_send_ping returns *)
  running : bool;                     (* the driver is in Running state *)
  enables : nat;                      (* enable commands sent so far *)
  delivers : nat -> bool;             (* is the k-th enable command (from 0) delivered *)
  drop_result : Z;                    (* what the sender of a lost enable command gets *)
  send_result : Z;                    (* what the pose and configuration sends return *)
  statusq : list ProHandStatusInfo;   (* queued status messages, oldest first *)
  next_handle : nat                   (* the next handle prohand_client_create hands out *)
}.

Definition host_call (p : pointer) (c : ApiCall) (h : Host) : Z * Host :=
  match p with
  | None => (PROHAND_ERROR_NULL, h)
  | Some _ =>
    match c with
    | prohand_client_is_connected => (1, h)
    | prohand_send_ping => (ping_result h, h)
    | prohand_is_running_state => (if running h then 1 else 0, h)
    | prohand_set_streaming_mode enabled =>
        if enabled =? 0 then
          (PROHAND_SUCCESS,
           mkHost (clock h) (ping_result h) false (enables h) (delivers h)
                  (drop_result h) (send_result h) (statusq h) (next_handle h))
        else if delivers h (enables h) then
          (PROHAND_SUCCESS,
           mkHost (clock h) (ping_result h) true (Datatypes.S (enables h)) (delivers h)
                  (drop_result h) (send_result h) (statusq h) (next_handle h))
        else
          (drop_result h,
           mkHost (clock h) (ping_result h) (running h) (Datatypes.S (enables h)) (delivers h)
                  (drop_result h) (send_result h) (statusq h) (next_handle h))
    | _ => (send_result h, h)
    end
  end.

Definition empty_status : ProHandStatusInfo :=
  {| is_valid := 0; status_type := 0;
     rotary_positions := fun _ => 0; linear_positions := fun _ => 0 |}.

Definition host_recv (p : pointer) (h : Host) : (Z * ProHandStatusInfo) * Host :=
  match p with
  | None => ((PROHAND_ERROR_NULL, empty_status), h)
  | Some _ =>
    match statusq h with
    | [] => ((0, empty_status), h)
    | m :: q =>
        ((1, m),
         mkHost (clock h) (ping_result h) (running h) (enables h) (delivers h)
                (drop_result h) (send_result h) q (next_handle h))
    end
  end.

#[export] Instance HostLibrary : Library Host := {
  steady_clock_now := clock;
  sleep_for d h :=
    mkHost (clock h + Z.max 0 d) (ping_result h) (running h) (enables h) (delivers h)
           (drop_result h) (send_result h) (statusq h) (next_handle h);
  prohand_client_create _ _ _ _ h :=
    (Some (next_handle h),
     mkHost (clock h) (ping_result h) (running h) (enables h) (delivers h)
            (drop_result h) (send_result h) (statusq h) (Datatypes.S (next_handle h)));
  prohand_client_destroy _ h := h;
  prohand_call := host_call;
  prohand_try_recv_status := host_recv
}.

(** Transports: one that delivers nothing, one that loses every first enable
    command and delivers every second, one that delivers everything. *)
Definition lose_all (k : nat) : bool := false.
Definition lose_every_first (k : nat) : bool := Nat.odd k.
Definition lose_none (k : nat) : bool := true.

(** A host at time 0 that answers pings, is not running, and has seen no
    enable command yet. *)
Definition idle_host (d : nat -> bool) (drop : Z) : Host :=
  mkHost 0 PROHAND_SUCCESS false 0 d drop PROHAND_SUCCESS [] 1.

Definition fresh {E} (e : E) : World E := mkWorld e [].

Definition client0 : ProHandClient := mkClient (Some 0%nat) "cmd" "status".
Definition null_client : ProHandClient := mkClient None "cmd" "status".

(** Hosts, messages and heaps of the instances below. *)

Definition failing_ping_host : Host :=
  mkHost 0 PROHAND_ERROR_CONNECTION false 0 lose_none PROHAND_SUCCESS PROHAND_SUCCESS [] 1.

Definition failing_enable_host : Host :=
  mkHost (ms 200) PROHAND_SUCCESS false 0 lose_all PROHAND_ERROR_CONNECTION
         PROHAND_SUCCESS [] 1.

Definition refusing_host : Host :=
  mkHost 0 PROHAND_SUCCESS false 0 lose_none PROHAND_SUCCESS PROHAND_ERROR_NOT_CONNECTED [] 1.

Definition one_status : ProHandStatusInfo :=
  {| is_valid := 1; status_type := 1;
     rotary_positions := fun i => Z.of_nat i; linear_positions := fun i => 100 + Z.of_nat i |}.

Definition queued_host : Host :=
  mkHost 0 PROHAND_SUCCESS false 0 lose_none PROHAND_SUCCESS PROHAND_SUCCESS [one_status] 1.

(** A heap with one live client, at address 0. *)
Definition heap0 : Heap := fun a => if Nat.eqb a 0 then client0 else null_client.

(** * Vocabulary of the properties *)

(** An event that is a status poll which reported Running. *)
Definition saw_running (e : Event) : bool :=
  match e with
  | EvCall _ prohand_is_running_state r => r =? 1
  | _ => false
  end.

Definition quiet (tl : list Event) : Prop := Forall (fun e => saw_running e = false) tl.

(** The number of poll intervals it takes to cover the duration [d]. *)
Definition polls_covering (d : Z) : Z := (d + pollInterval - 1) / pollInterval.

(** The times of the status polls of a call, counted from its start: the
    settle delay, then one poll interval after the other. The first re-assert
    of the enable command is made at the first poll that is not before the
    retry interval. *)
Definition first_reassert (retryInterval : Z) : Z :=
  settleDelay + pollInterval * polls_covering (Z.max 0 (retryInterval - settleDelay)).

(** The second re-assert is made at the first later poll that is a retry
    interval after the first when the first was acknowledged, and at the very
    next poll when the first failed. *)
Definition second_reassert (retryInterval : Z) (acknowledged : bool) : Z :=
  first_reassert retryInterval +
  pollInterval * (if acknowledged then Z.max 1 (polls_covering retryInterval) else 1).

(** The loop ends at time [t] with the driver Running or not, as [b] says. *)
Definition ends_at (t : Z) (b : bool) (o : option (Result LoopExit * World Host)) : Prop :=
  exists x w3, o = Some (Ok x, w3) /\ clock (env w3) = t /\ running (env w3) = b /\
               (x = ReturnTrue -> b = true).

(** Enough turns of the loop are left to reach the deadline from the host
    [h]. *)
Definition enough (timeout start : Z) (fuel : nat) (h : Host) : Prop :=
  (1 <= fuel)%nat /\ timeout - (clock h - start) <= (Z.of_nat fuel - 1) * pollInterval.

(** The [HandStatus] the wrapper builds from a wire structure. *)
Definition hand_status_of (statusInfo : ProHandStatusInfo) : HandStatus :=
  {| isValid := negb (is_valid statusInfo =? 0);
     statusType := status_type statusInfo;
     rotaryPositions := assign (rotary_positions statusInfo) 16;
     linearPositions := assign (linear_positions statusInfo) 2 |}.

(** [n] calls of [tryRecvStatus] in a row, with their results in order. *)
Fixpoint poll_status {E : Type} `{Library E} (n : nat) (c : ProHandClient) (w : World E)
  : list (Result (option HandStatus)) * World E :=
  match n with
  | O => ([], w)
  | Datatypes.S n' =>
      let (r, w1) := tryRecvStatus c w in
      let (rs, w2) := poll_status n' c w1 in
      (r :: rs, w2)
  end.

(** What can happen to client objects: a move construction of the object at
    [this] from the one at [other], a move assignment, a destruction. *)
Inductive Lifecycle : Type :=
| MoveConstruct (this other : nat)
| MoveAssign (this other : nat)
| Destruct (this : nat).

(** The pointers passed to [prohand_client_destroy] so far, in order. *)
Definition destroyed (tr : list Event) : list pointer :=
  flat_map (fun e => match e with EvDestroy p => [p] | _ => [] end) tr.

(** No handle has two owners, no owned handle was destroyed, and so far no
    pointer was destroyed twice and the null pointer never. *)
Definition sole_owners (hp : Heap) (tr : list Event) : Prop :=
  (forall a b h, handle_ (hp a) = Some h -> handle_ (hp b) = Some h -> a = b) /\
  (forall a h, handle_ (hp a) = Some h -> ~ In (Some h) (destroyed tr)) /\
  NoDup (destroyed tr) /\
  ~ In None (destroyed tr).

Section Auxiliary.
Context {E : Type} `{Library E}.

(** The world after one re-assert attempt, and the [lastRetry] it leaves. *)
Definition reassert (c : ProHandClient) (now_ lastRetry : Z) (w : World E) : Z * World E :=
  match setStreamingMode c true w with
  | (Ok _, w2) => (now_, w2)
  | (Throw _, w2) => (lastRetry, w2)
  end.

Definition lifecycle_step (l : Lifecycle) (hp : Heap) : M E Heap :=
  match l with
  | MoveConstruct this other => move_construct this other hp
  | MoveAssign this other => move_assign this other hp
  | Destruct this => destructor this hp
  end.

Fixpoint lifecycle_run (ls : list Lifecycle) (hp : Heap) : M E Heap :=
  match ls with
  | [] => ret hp
  | l :: ls' => hp' <- lifecycle_step l hp ;; lifecycle_run ls' hp'
  end.

End Auxiliary.

(** ** The streaming demos

    [main] of [cyclic_motion.cpp], [kapandji.cpp] and [test_hand.cpp], without
    the printing. What the demos compute in floating point (the poses) and
    read from files (the YAML gestures) is a parameter. *)

(** Computations that can also run out of loop turns. *)
Definition MF (E A : Type) : Type := World E -> option (Result A * World E).

Definition liftF {E A} (m : M E A) : MF E A := fun w => Some (m w).

Definition bindF {E A B} (m : MF E A) (k : A -> MF E B) : MF E B :=
  fun w => match m w with
           | None => None
           | Some (Ok a, w') => k a w'
           | Some (Throw e, w') => Some (Throw e, w')
           end.

Notation "x <-- m ;; k" := (bindF m (fun x => k))
  (at level 61, m at next level, right associativity).
Notation "m ;;- k" := (bindF m (fun _ => k))
  (at level 61, right associativity).

(** [for (x : xs) body] *)
Fixpoint for_each {E A} (xs : list A) (body : A -> MF E unit) : MF E unit :=
  match xs with
  | [] => liftF (ret tt)
  | x :: xs' => body x ;;- for_each xs' body
  end.

(** [v[i] = x] *)
Fixpoint vec_set (v : list float32) (i : nat) (x : float32) : list float32 :=
  match v, i with
  | [], _ => []
  | _ :: t, O => x :: t
  | h :: t, Datatypes.S i' => h :: vec_set t i' x
  end.

(** Bit patterns of the [float] literals [1.0f] and [0.45f]. *)
Definition float_1_0 : float32 := 1065353216.
Definition float_0_45 : float32 := 1055286886.

Record Endpoints : Type := {
  commandEndpoint : string;
  statusEndpoint : string;
  handStreamingEndpoint : string;
  wristStreamingEndpoint : string
}.

Section Demos.
Context {E : Type} `{Library E}.

Definition steady_now : M E Z := fun w => (Ok (clock_now w), w).

(** [try { ... } catch (const SdkException &) { return 1; }
    catch (const std::exception &) { return 1; }] *)
Definition try_main (body : MF E Z) (w : World E) : option (Z * World E) :=
  match body w with
  | None => None
  | Some (Ok code, w') => Some (code, w')
  | Some (Throw _, w') => Some (1, w')
  end.

(** [ProHandClient client(...)] as a local object of the block [body]: its
    destructor runs when the block is left, by [return] or by an exception. *)
Definition with_client (eps : Endpoints) (body : ProHandClient -> MF E Z) : MF E Z :=
  client <-- liftF (ProHandClient_new (commandEndpoint eps) (statusEndpoint eps)
                      (handStreamingEndpoint eps) (wristStreamingEndpoint eps)) ;;
  fun w => match body client w with
           | None => None
           | Some (r, w') => Some (r, snd (destructor 0 (fun _ => client) w'))
           end.

(** *** cyclic_motion.cpp *)

Variable cyclic_hand_pose : Z -> list float32.    (* the 20 joint angles at time t *)
Variable cyclic_wrist_pose : Z -> list float32.   (* the 2 wrist angles at time t *)

(** The [while (true)] loop of lines 104-209; [period] is [1.0 / pubHz]. *)
Fixpoint cyclic_loop (fuel : nat) (client : ProHandClient) (excludeWrist : bool)
    (duration period startTime iteration : Z) : MF E unit :=
  match fuel with
  | O => fun _ => None
  | Datatypes.S fuel' =>
    now_ <-- liftF steady_now ;;
    let t := now_ - startTime in
    if t >=? duration then liftF (ret tt)
    else
      liftF (if negb excludeWrist
             then sendWristStreams client (cyclic_wrist_pose t) false
             else sendWristStreams client [0; 0] false) ;;-
      liftF (sendHandStreams client (cyclic_hand_pose t) float_1_0) ;;-
      let iteration := iteration + 1 in
      now2 <-- liftF steady_now ;;
      let sleepTime := startTime + (iteration + 1) * period - now2 in
      liftF (if sleepTime >? 0 then sleep sleepTime else ret tt) ;;-
      cyclic_loop fuel' client excludeWrist duration period startTime iteration
  end.

Definition cyclic_motion_main (help : bool) (eps : Endpoints) (excludeWrist : bool)
    (duration period : Z) (fuel : nat) : World E -> option (Z * World E) :=
  if help then fun w => Some (0, w)
  else try_main (with_client eps (fun client =>
    liftF (sendPing client) ;;-
    liftF (sleep (ms 200)) ;;-
    liftF (setStreamingMode client true) ;;-
    ready <-- waitForStreamingReady fuel client (ms 10000) default_retryInterval ;;
    if negb ready then
      liftF (setStreamingMode client false) ;;-
      liftF (ret 1)
    else
      startTime <-- liftF steady_now ;;
      cyclic_loop fuel client excludeWrist duration period startTime 0 ;;-
      liftF (sendHandStreams client (repeat 0 20) float_1_0) ;;-
      liftF (if negb excludeWrist then sendWristStreams client [0; 0] false else ret tt) ;;-
      liftF (sleep (ms 500)) ;;-
      liftF (setStreamingMode client false) ;;-
      liftF (sleep (ms 200)) ;;-
      liftF (ret 0))).

(** *** kapandji.cpp *)

(** [poseFromYaml] followed by [poseToHandPositions] and the wrist entry:
    the 20 hand and 2 wrist positions of a gesture, or [None] when the
    gesture is missing and [poseFromYaml] throws. *)
Variable poseFromYaml : string -> option (list float32 * list float32).

(** The gestures of one pass over the fingers and back. *)
Definition kapandji_round (first rest : Z) : list (string * Z) :=
  [("finger_down_0", first); ("finger_down_1", rest); ("finger_down_2", rest);
   ("finger_down_3", rest); ("finger_down_4", rest); ("finger_down_3", rest);
   ("finger_down_2", rest); ("finger_down_1", rest)]%string.

(** The table [sequence] of lines 209-269, durations in microseconds. *)
Definition kapandji_sequence : list (string * Z) :=
  kapandji_round (ms 2000) (ms 1000) ++ kapandji_round (ms 1250) (ms 500) ++
  kapandji_round (ms 500) (ms 250) ++ kapandji_round (ms 250) (ms 100) ++
  kapandji_round (ms 250) (ms 100) ++ kapandji_round (ms 250) (ms 100).

(** The loop of [streamPose]. *)
Fixpoint streamPose_loop (fuel : nat) (client : ProHandClient)
    (positions wristPositions : list float32) (period deadline : Z) (torque : float32)
  : MF E unit :=
  match fuel with
  | O => fun _ => None
  | Datatypes.S fuel' =>
    now_ <-- liftF steady_now ;;
    if now_ <? deadline then
      liftF (sendWristStreams client wristPositions false) ;;-
      liftF (sendHandStreams client positions torque) ;;-
      liftF (sleep period) ;;-
      streamPose_loop fuel' client positions wristPositions period deadline torque
    else liftF (ret tt)
  end.

Definition streamPose (fuel : nat) (client : ProHandClient)
    (pose : list float32 * list float32) (period durationS : Z) (torque : float32)
  : MF E unit :=
  now_ <-- liftF steady_now ;;
  streamPose_loop fuel client (fst pose) (snd pose) period (now_ + durationS) torque.

(** [main] when yaml-cpp is there. [yaml_loaded] is whether [YAML::LoadFile]
    returns; an exception that is not an [SdkException] is caught by the second
    handler, which returns 1 as the first does. *)
Definition kapandji_main (help yaml_loaded : bool) (eps : Endpoints) (period : Z)
    (torqueLevel : float32) (fuel : nat) : World E -> option (Z * World E) :=
  if help then fun w => Some (0, w)
  else try_main (
    (if yaml_loaded then liftF (ret tt)
     else liftF (throw (SdkError "bad file"))) ;;-
    with_client eps (fun client =>
      liftF (sendPing client) ;;-
      liftF (sleep (ms 200)) ;;-
      liftF (setStreamingMode client true) ;;-
      ready <-- waitForStreamingReady fuel client (ms 10000) default_retryInterval ;;
      if negb ready then liftF (ret 1)
      else
        for_each kapandji_sequence (fun gd =>
          match poseFromYaml (fst gd) with
          | None => liftF (throw (SdkError "YAML gesture not found"))
          | Some pose => streamPose fuel client pose period (snd gd) torqueLevel
          end) ;;-
        liftF (sendHandStreams client (repeat 0 20) torqueLevel) ;;-
        liftF (sleep (ms 500)) ;;-
        liftF (setStreamingMode client false) ;;-
        liftF (sleep (ms 200)) ;;-
        liftF (ret 0))).

(** [main] when yaml-cpp is missing: connect and return. *)
Definition kapandji_main_without_yaml (help : bool) (eps : Endpoints)
  : World E -> option (Z * World E) :=
  if help then fun w => Some (0, w)
  else try_main (with_client eps (fun client => liftF (ret 0))).

(** *** test_hand.cpp *)

Variable deg_to_rad : Z -> float32.      (* deg * M_PI / 180.0f as a float *)

(** One cycle of one joint (lines 433-457): to the maximum, then to the
    minimum. [thumb] is whether the finger is the thumb. *)
Definition test_hand_cycle (client : ProHandClient) (thumb : bool) (j jointIdx : nat)
    (delay : Z) : MF E unit :=
  let minRad := deg_to_rad (if Nat.eqb j 0 && negb thumb then -30 else 0) in
  let maxRad := deg_to_rad (if Nat.eqb j 0 && negb thumb then 30 else 90) in
  let positions := repeat 0 20 in
  let positions :=
    if Nat.eqb j 3 && negb thumb
    then vec_set positions (jointIdx - 1) (deg_to_rad 90)
    else positions in
  let positions := vec_set positions jointIdx maxRad in
  liftF (sendHandStreams client positions float_0_45) ;;-
  liftF (sendWristStreams client (repeat 0 2) false) ;;-
  liftF (sleep delay) ;;-
  let positions := vec_set positions jointIdx minRad in
  liftF (sendHandStreams client positions float_0_45) ;;-
  liftF (sendWristStreams client (repeat 0 2) false) ;;-
  liftF (sleep delay).

Definition test_hand_main (help : bool) (eps : Endpoints) (delay : Z) (cycles : Z)
    (fuel : nat) : World E -> option (Z * World E) :=
  if help then fun w => Some (0, w)
  else try_main (with_client eps (fun client =>
    liftF (sendPing client) ;;-
    liftF (sleep (ms 200)) ;;-
    liftF (setStreamingMode client true) ;;-
    ready <-- waitForStreamingReady fuel client (ms 5000) default_retryInterval ;;
    if negb ready then
      liftF (setStreamingMode client false) ;;-
      liftF (ret 1)
    else
      liftF (sendHandStreams client (repeat 0 20) float_0_45) ;;-
      liftF (sendWristStreams client (repeat 0 2) false) ;;-
      liftF (sleep (ms 1000)) ;;-
      for_each (seq 0 5) (fun fingerIdx =>
        for_each (seq 0 4) (fun j =>
          for_each (seq 0 (Z.to_nat cycles)) (fun _ =>
            test_hand_cycle client (Nat.eqb fingerIdx 0) j (fingerIdx * 4 + j) delay))) ;;-
      liftF (sendHandStreams client (repeat 0 20) float_0_45) ;;-
      liftF (sendWristStreams client (repeat 0 2) false) ;;-
      liftF (sleep (ms 500)) ;;-
      liftF (setStreamingMode client false) ;;-
      liftF (sleep (ms 200)) ;;-
      liftF (ret 0))).

End Demos.

(** The demos with their command-line options and the computations they
    leave open. *)
Inductive Demo : Type :=
| CyclicMotion (cyclic_hand_pose cyclic_wrist_pose : Z -> list float32)
    (help : bool) (eps : Endpoints) (excludeWrist : bool) (duration period : Z)
| Kapandji (poseFromYaml : string -> option (list float32 * list float32))
    (help yaml_loaded : bool) (eps : Endpoints) (period : Z) (torqueLevel : float32)
| KapandjiWithoutYaml (help : bool) (eps : Endpoints)
| TestHand (deg_to_rad : Z -> float32) (help : bool) (eps : Endpoints) (delay cycles : Z).

Definition run_demo {E : Type} `{Library E} (fuel : nat) (d : Demo)
  : World E -> option (Z * World E) :=
  match d with
  | CyclicMotion hand wrist help eps excludeWrist duration period =>
      cyclic_motion_main hand wrist help eps excludeWrist duration period fuel
  | Kapandji pose help yaml_loaded eps period torqueLevel =>
      kapandji_main pose help yaml_loaded eps period torqueLevel fuel
  | KapandjiWithoutYaml help eps => kapandji_main_without_yaml help eps
  | TestHand deg_to_rad help eps delay cycles =>
      test_hand_main deg_to_rad help eps delay cycles fuel
  end.

Definition demo_endpoints : Endpoints :=
  {| commandEndpoint := "ipc:///tmp/prohand-commands.ipc";
     statusEndpoint := "ipc:///tmp/prohand-status.ipc";
     handStreamingEndpoint := "ipc:///tmp/prohand-hand-streaming.ipc";
     wristStreamingEndpoint := "ipc:///tmp/prohand-wrist-streaming.ipc" |}.

Definition short_cyclic_motion : Demo :=
  CyclicMotion (fun _ => repeat 0 20) (fun _ => repeat 0 2) false demo_endpoints false
    (ms 20) (ms 10).

(** ** Vocabulary of the gating property *)

(** A call that goes out on a streaming socket. *)
Definition is_stream_send (e : Event) : bool :=
  match e with
  | EvCall _ (prohand_send_rotary_streams _ _) _
  | EvCall _ (prohand_send_linear_streams _ _) _
  | EvCall _ (prohand_send_wrist_streams _ _) _
  | EvCall _ (prohand_send_hand_streams _ _) _ => true
  | _ => false
  end.

Definition not_stream (e : Event) : Prop := is_stream_send e = false.
Definition any_event (e : Event) : Prop := True.
Definition no_stream (tr : list Event) : Prop := Forall not_stream tr.

(** The events a computation adds to the trace all satisfy [P]. *)
Definition emits {E A} (P : Event -> Prop) (m : M E A) : Prop :=
  forall w, exists tl, trace (snd (m w)) = trace w ++ tl /\ Forall P tl.

Definition emitsF {E A} (P : Event -> Prop) (f : MF E A) : Prop :=
  forall w r w', f w = Some (r, w') -> exists tl, trace w' = trace w ++ tl /\ Forall P tl.

Definition extends {E} (w w' : World E) : Prop := exists tl, trace w' = trace w ++ tl.

(** The run from [w] that ended in [w'] made no streaming send at all, or at
    some point of it [waitForStreamingReady] returned [true], on a poll that
    reported Running, and no streaming send was made before that point. *)
Definition gated_run {E} `{Library E} (w w' : World E) : Prop :=
  no_stream (trace w') \/
  exists fuel c timeout retryInterval w0 wr tl0,
    extends w w0 /\
    waitForStreamingReady fuel c timeout retryInterval w0 = Some (Ok true, wr) /\
    trace wr = tl0 ++ [EvCall (handle_ c) prohand_is_running_state 1] /\
    no_stream (trace wr) /\ extends wr w'.

Definition gatedF {E A} `{Library E} (f : MF E A) : Prop :=
  forall w0 w r w',
    extends w0 w -> no_stream (trace w) -> f w = Some (r, w') -> gated_run w0 w'.

(** * Properties *)

Section Readiness.
Context {E : Type} `{Library E}.

(** A failed [checkResult] throws, whatever the code. *)
Lemma checkResult_throws (result : Z) (operation : string) (w : World E) :
  result <> PROHAND_SUCCESS ->
  exists msg, checkResult result operation w = (Throw (SdkError msg), w).
Proof.
  intros Hne. unfold checkResult.
  destruct (result =? PROHAND_SUCCESS) eqn:Heq.
  - apply Z.eqb_eq in Heq. contradiction.
  - eexists. reflexivity.
Qed.

Lemma checkResult_success (operation : string) (w : World E) :
  checkResult PROHAND_SUCCESS operation w = (Ok tt, w).
Proof. reflexivity. Qed.

Lemma checkResult_same (result : Z) (operation : string) (w : World E) :
  snd (checkResult result operation w) = w.
Proof. unfold checkResult, ret, throw. destruct (result =? PROHAND_SUCCESS); reflexivity. Qed.

(** What [sendPing] does on a valid handle. *)
Lemma sendPing_valid (c : ProHandClient) (w : World E) :
  is_null (handle_ c) = false ->
  sendPing c w =
    let (r, s') := prohand_call (handle_ c) prohand_send_ping (env w) in
    checkResult r "sendPing"
      (mkWorld s' (trace w ++ [EvCall (handle_ c) prohand_send_ping r])).
Proof.
  intros Hh. unfold sendPing, bind, checkHandle, call. rewrite Hh. cbn.
  destruct (prohand_call (handle_ c) prohand_send_ping (env w)) as [r s'].
  destruct (checkResult r "sendPing" _) as [[u|e] w']; [destruct u|]; reflexivity.
Qed.

(** A failed ping ends [waitForStreamingReady] at once with [false]. *)
Lemma failed_ping_returns_false
    (fuel : nat) (c : ProHandClient) (timeout retryInterval : Z) (w : World E) :
  is_null (handle_ c) = false ->
  fst (prohand_call (handle_ c) prohand_send_ping (env w)) <> PROHAND_SUCCESS ->
  waitForStreamingReady fuel c timeout retryInterval w =
    Some (Ok false,
          mkWorld (snd (prohand_call (handle_ c) prohand_send_ping (env w)))
                  (trace w ++ [EvCall (handle_ c) prohand_send_ping
                     (fst (prohand_call (handle_ c) prohand_send_ping (env w)))])).
Proof.
  intros Hh Hfail. unfold waitForStreamingReady.
  unfold checkHandle at 1. rewrite Hh. cbn.
  rewrite (sendPing_valid c w Hh).
  destruct (prohand_call (handle_ c) prohand_send_ping (env w)) as [r s'].
  cbn in *.
  destruct (checkResult_throws r "sendPing"
              (mkWorld s' (trace w ++ [EvCall (handle_ c) prohand_send_ping r])) Hfail)
    as [msg Hmsg].
  rewrite Hmsg. reflexivity.
Qed.

(** C3. On a client with a valid handle, when the initial ping fails,
    [waitForStreamingReady] returns [false] at once: for every bound on the
    loop (even none), the only interaction with the host is that one ping;
    no status poll, no enable command and no sleep take place. *)
Theorem waitForStreamingReady_ping_failure
    (fuel : nat) (c : ProHandClient) (timeout retryInterval : Z) (w : World E) :
  is_null (handle_ c) = false ->
  fst (prohand_call (handle_ c) prohand_send_ping (env w)) <> PROHAND_SUCCESS ->
  waitForStreamingReady fuel c timeout retryInterval w =
    Some (Ok false,
          mkWorld (snd (prohand_call (handle_ c) prohand_send_ping (env w)))
                  (trace w ++ [EvCall (handle_ c) prohand_send_ping
                     (fst (prohand_call (handle_ c) prohand_send_ping (env w)))])).
Proof.
  intros Hh Hfail. unfold waitForStreamingReady, checkHandle, ret.
  rewrite Hh, (sendPing_valid c w Hh).
  pose proof (checkResult_throws _ "sendPing"
                (mkWorld (snd (prohand_call (handle_ c) prohand_send_ping (env w)))
                   (trace w ++ [EvCall (handle_ c) prohand_send_ping
                      (fst (prohand_call (handle_ c) prohand_send_ping (env w)))]))
                Hfail) as [msg Hmsg].
  destruct (prohand_call (handle_ c) prohand_send_ping (env w)) as [r s'].
  cbn [fst snd] in *. rewrite Hmsg. reflexivity.
Qed.

(** The status poll and the enable command on a valid handle. *)
Lemma isRunningState_valid (c : ProHandClient) (w : World E) :
  is_null (handle_ c) = false ->
  isRunningState c w =
    (Ok (fst (prohand_call (handle_ c) prohand_is_running_state (env w)) =? 1),
     mkWorld (snd (prohand_call (handle_ c) prohand_is_running_state (env w)))
             (trace w ++ [EvCall (handle_ c) prohand_is_running_state
                (fst (prohand_call (handle_ c) prohand_is_running_state (env w)))])).
Proof.
  intros Hh. unfold isRunningState, bind, checkHandle, call. rewrite Hh. cbn.
  destruct (prohand_call (handle_ c) prohand_is_running_state (env w)); reflexivity.
Qed.

Lemma setStreamingMode_valid (c : ProHandClient) (enabled : bool) (w : World E) :
  is_null (handle_ c) = false ->
  let a := prohand_set_streaming_mode (if enabled then 1 else 0) in
  let r := fst (prohand_call (handle_ c) a (env w)) in
  let w' := mkWorld (snd (prohand_call (handle_ c) a (env w)))
                    (trace w ++ [EvCall (handle_ c) a r]) in
  setStreamingMode c enabled w =
    (if r =? PROHAND_SUCCESS then Ok tt
     else fst (checkResult r "setStreamingMode" w'), w').
Proof.
  intros Hh a r w'. subst a r w'.
  unfold setStreamingMode, bind, checkHandle, call. rewrite Hh. cbn.
  destruct (prohand_call (handle_ c) _ (env w)) as [r s']. cbn.
  unfold checkResult. destruct (r =? PROHAND_SUCCESS); reflexivity.
Qed.

Lemma reassert_trace (c : ProHandClient) (now_ lastRetry : Z) (w : World E) :
  is_null (handle_ c) = false ->
  exists r, trace (snd (reassert c now_ lastRetry w)) =
            trace w ++ [EvCall (handle_ c) (prohand_set_streaming_mode 1) r].
Proof.
  intros Hh. unfold reassert. rewrite (setStreamingMode_valid c true w Hh). cbn.
  eexists.
  destruct (_ =? PROHAND_SUCCESS).
  - reflexivity.
  - destruct (fst (checkResult _ _ _)); reflexivity.
Qed.

(** One unfolding of the loop on a valid handle, in the case where the
    deadline has not passed and the poll does not report Running. *)
Lemma poll_loop_turn (fuel : nat) (c : ProHandClient) (timeout retryInterval : Z)
    (start lastRetry : Z) (w : World E) :
  is_null (handle_ c) = false ->
  clock_now w - start < timeout ->
  fst (prohand_call (handle_ c) prohand_is_running_state (env w)) <> 1 ->
  let w1 := snd (isRunningState c w) in
  let lw := if clock_now w - lastRetry >=? retryInterval
            then reassert c (clock_now w) lastRetry w1
            else (lastRetry, w1) in
  poll_loop (Datatypes.S fuel) c timeout retryInterval start lastRetry w =
  poll_loop fuel c timeout retryInterval start (fst lw)
    (snd (sleep (Z.min pollInterval (timeout - (clock_now w - start))) (snd lw))).
Proof.
  intros Hh Hlt Hnr w1 lw. subst w1 lw. cbn [poll_loop].
  destruct (clock_now w - start >=? timeout) eqn:Hge; [lia|].
  rewrite (isRunningState_valid c w Hh). cbn [fst snd].
  destruct (_ =? 1) eqn:H1; [lia|].
  destruct (timeout - (clock_now w - start) >? 0) eqn:Hrem; [|lia].
  unfold reassert.
  destruct (clock_now w - lastRetry >=? retryInterval).
  - destruct (setStreamingMode c true _) as [[u|e] w2]; reflexivity.
  - reflexivity.
Qed.

(** How the loop can end on a valid handle: it never throws; it ends by
    [return true] right after a poll that reported Running, or by [break]
    with the deadline passed; no earlier poll of the loop reported Running. *)
Lemma poll_loop_exit (c : ProHandClient) (timeout retryInterval start : Z) :
  is_null (handle_ c) = false ->
  forall (fuel : nat) (lastRetry : Z) (w w3 : World E) (res : Result LoopExit),
  poll_loop fuel c timeout retryInterval start lastRetry w = Some (res, w3) ->
  exists tl, trace w3 = trace w ++ tl /\
    ((res = Ok Break /\ timeout <= clock_now w3 - start /\ quiet tl) \/
     (res = Ok ReturnTrue /\
      exists tl0, tl = tl0 ++ [EvCall (handle_ c) prohand_is_running_state 1] /\ quiet tl0)).
Proof.
  intros Hh. induction fuel as [|fuel IH]; intros lastRetry w w3 res Hrun.
  - discriminate.
  - destruct (Z_lt_ge_dec (clock_now w - start) timeout) as [Hlt|Hge].
    + destruct (Z.eq_dec (fst (prohand_call (handle_ c) prohand_is_running_state (env w))) 1)
        as [Hr|Hnr].
      * (* the poll reports Running *)
        cbn [poll_loop] in Hrun.
        destruct (clock_now w - start >=? timeout) eqn:Hge; [lia|].
        rewrite (isRunningState_valid c w Hh) in Hrun. rewrite Hr in Hrun.
        cbn in Hrun. inversion Hrun; subst; clear Hrun. cbn [trace].
        eexists. split; [reflexivity|]. right. split; [reflexivity|].
        exists []. split; [reflexivity | constructor].
      * rewrite (poll_loop_turn fuel c timeout retryInterval start lastRetry w Hh Hlt Hnr)
          in Hrun.
        apply IH in Hrun. destruct Hrun as [tl [Htr Hcases]].
        cbn [sleep snd trace] in Htr.
        assert (Hpre : exists pre, quiet pre /\
          trace (snd (if clock_now w - lastRetry >=? retryInterval
                      then reassert c (clock_now w) lastRetry (snd (isRunningState c w))
                      else (lastRetry, snd (isRunningState c w)))) = trace w ++ pre).
        { rewrite (isRunningState_valid c w Hh). cbn [snd].
          destruct (clock_now w - lastRetry >=? retryInterval).
          - destruct (reassert_trace c (clock_now w) lastRetry
                        (mkWorld (snd (prohand_call (handle_ c) prohand_is_running_state (env w)))
                           (trace w ++ [EvCall (handle_ c) prohand_is_running_state
                              (fst (prohand_call (handle_ c) prohand_is_running_state (env w)))]))
                        Hh) as [r Hr].
            rewrite Hr. cbn [trace]. rewrite <- app_assoc. eexists. split; [|reflexivity].
            repeat constructor. cbn. apply Z.eqb_neq. exact Hnr.
          - cbn [snd trace]. eexists. split; [|reflexivity].
            repeat constructor. cbn. apply Z.eqb_neq. exact Hnr. }
        destruct Hpre as [pre [Hq Hpre]]. rewrite Hpre in Htr.
        rewrite <- !app_assoc in Htr.
        eexists. split; [exact Htr|].
        assert (Hq' : quiet (pre ++ [EvSleep (Z.min pollInterval (timeout - (clock_now w - start)))])).
        { apply Forall_app. split; [exact Hq | repeat constructor]. }
        destruct Hcases as [[Hres [Hdl Hquiet]] | [Hres [tl0 [Htl Hquiet]]]].
        -- left. split; [exact Hres|]. split; [exact Hdl|].
           rewrite app_assoc. apply Forall_app. split; assumption.
        -- right. split; [exact Hres|].
           exists ((pre ++ [EvSleep (Z.min pollInterval (timeout - (clock_now w - start)))]) ++ tl0).
           split.
           ++ rewrite Htl. rewrite <- !app_assoc. reflexivity.
           ++ apply Forall_app. split; assumption.
    + (* the deadline has passed: break *)
      cbn [poll_loop] in Hrun.
      destruct (clock_now w - start >=? timeout) eqn:Hge'; [|lia].
      inversion Hrun; subst; clear Hrun.
      exists []. split; [symmetry; apply app_nil_r|].
      left. split; [reflexivity|]. split; [lia | constructor].
Qed.

(** [waitForStreamingReady] past its handle check. *)
Lemma waitForStreamingReady_valid
    (fuel : nat) (c : ProHandClient) (timeout retryInterval : Z) (w : World E) :
  is_null (handle_ c) = false ->
  waitForStreamingReady fuel c timeout retryInterval w =
    match sendPing c w with
    | (Throw _, w1) => Some (Ok false, w1)
    | (Ok _, w1) =>
      match poll_loop fuel c timeout retryInterval (clock_now w1) (clock_now w1)
              (mkWorld (sleep_for settleDelay (env w1)) (trace w1 ++ [EvSleep settleDelay])) with
      | None => None
      | Some (Throw e, w3) => Some (Throw e, w3)
      | Some (Ok ReturnTrue, w3) => Some (Ok true, w3)
      | Some (Ok Break, w3) => Some (isRunningState c w3)
      end
    end.
Proof.
  intros Hh. unfold waitForStreamingReady. unfold checkHandle at 1. rewrite Hh.
  reflexivity.
Qed.

(** C4. When the loop is left by [break] (the deadline has passed and no
    poll of the loop reported Running), [waitForStreamingReady] makes exactly
    one more status poll, after the loop, and returns what that poll says:
    [true] if it reports Running, [false] otherwise. *)
Theorem waitForStreamingReady_final_check
    (fuel : nat) (c : ProHandClient) (timeout retryInterval : Z) (w w1 w3 : World E) :
  is_null (handle_ c) = false ->
  sendPing c w = (Ok tt, w1) ->
  poll_loop fuel c timeout retryInterval (clock_now w1) (clock_now w1)
            (snd (sleep settleDelay w1)) = Some (Ok Break, w3) ->
  let final := prohand_call (handle_ c) prohand_is_running_state (env w3) in
  waitForStreamingReady fuel c timeout retryInterval w =
    Some (Ok (fst final =? 1),
          mkWorld (snd final)
                  (trace w3 ++ [EvCall (handle_ c) prohand_is_running_state (fst final)]))
  /\ timeout <= clock_now w3 - clock_now w1
  /\ exists tl, trace w3 = trace w1 ++ EvSleep settleDelay :: tl /\ quiet tl.
Proof.
  intros Hh Hping Hloop final. subst final.
  split; [|].
  - rewrite (waitForStreamingReady_valid fuel c timeout retryInterval w Hh).
    rewrite Hping. unfold sleep in Hloop. cbn [snd] in Hloop. rewrite Hloop.
    apply f_equal. apply (isRunningState_valid c w3 Hh).
  - destruct (poll_loop_exit c timeout retryInterval (clock_now w1) Hh
                fuel (clock_now w1) _ w3 (Ok Break) Hloop) as [tl [Htr Hcases]].
    destruct Hcases as [[_ [Hdl Hq]] | [Hres _]]; [|discriminate].
    split; [exact Hdl|].
    exists tl. cbn [sleep snd trace] in Htr. rewrite Htr, <- app_assoc.
    split; [reflexivity | exact Hq].
Qed.

(** On a valid handle nothing is thrown out of [waitForStreamingReady]. *)
Lemma waitForStreamingReady_no_throw
    (fuel : nat) (c : ProHandClient) (timeout retryInterval : Z) (w : World E) :
  is_null (handle_ c) = false ->
  waitForStreamingReady fuel c timeout retryInterval w = None \/
  exists b w', waitForStreamingReady fuel c timeout retryInterval w = Some (Ok b, w').
Proof.
  intros Hh. rewrite (waitForStreamingReady_valid fuel c timeout retryInterval w Hh).
  destruct (sendPing c w) as [[u|e] w1]; [|right; eauto].
  destruct (poll_loop fuel c timeout retryInterval (clock_now w1) (clock_now w1) _)
    as [[res w3]|] eqn:Hloop; [|left; reflexivity].
  right.
  destruct (poll_loop_exit c timeout retryInterval (clock_now w1) Hh _ _ _ _ _ Hloop)
    as [tl [_ [[Hres _] | [Hres _]]]]; subst res.
  - rewrite (isRunningState_valid c w3 Hh). eauto.
  - eauto.
Qed.

End Readiness.

Section Termination.
Context {E : Type} `{Library E}.

Lemma isRunningState_clock `{!MonotoneClock E} (c : ProHandClient) (w : World E) :
  clock_now w <= clock_now (snd (isRunningState c w)).
Proof.
  unfold isRunningState, bind, checkHandle, call, throw, ret.
  destruct (is_null (handle_ c)); cbn; [lia|].
  pose proof (call_monotone (handle_ c) prohand_is_running_state (env w)) as Hm.
  destruct (prohand_call (handle_ c) prohand_is_running_state (env w)); cbn in *.
  exact Hm.
Qed.

Lemma setStreamingMode_clock `{!MonotoneClock E} (c : ProHandClient) (b : bool) (w : World E) :
  clock_now w <= clock_now (snd (setStreamingMode c b w)).
Proof.
  unfold setStreamingMode, bind, checkHandle, call, throw, ret.
  destruct (is_null (handle_ c)); cbn; [lia|].
  pose proof (call_monotone (handle_ c)
                (prohand_set_streaming_mode (if b then 1 else 0)) (env w)) as Hm.
  destruct (prohand_call (handle_ c) _ (env w)) as [r s']; cbn in *.
  unfold checkResult, ret, throw. destruct (r =? PROHAND_SUCCESS); exact Hm.
Qed.

(** The loop returns when it is given one turn per poll interval that fits
    before the deadline, and one more. *)
Lemma poll_loop_returns `{!MonotoneClock E}
    (c : ProHandClient) (timeout retryInterval start : Z) :
  forall (fuel : nat) (lastRetry : Z) (w : World E),
  (1 <= fuel)%nat ->
  timeout - (clock_now w - start) <= (Z.of_nat fuel - 1) * pollInterval ->
  exists res, poll_loop fuel c timeout retryInterval start lastRetry w = Some res.
Proof.
  induction fuel as [|fuel IH]; intros lastRetry w Hf Hfuel; [lia|].
  cbn [poll_loop].
  destruct (clock_now w - start >=? timeout) eqn:Hge; [eauto|].
  pose proof (isRunningState_clock c w) as Hc1.
  destruct (isRunningState c w) as [[[|]|e] w1]; [eauto| |eauto].
  cbn [snd] in Hc1.
  assert (Hlw : exists lr w2, clock_now w1 <= clock_now w2 /\
     (if clock_now w - lastRetry >=? retryInterval
      then match setStreamingMode c true w1 with
           | (Ok _, w2) => (clock_now w, w2)
           | (Throw _, w2) => (lastRetry, w2)
           end
      else (lastRetry, w1)) = (lr, w2)).
  { destruct (clock_now w - lastRetry >=? retryInterval).
    - pose proof (setStreamingMode_clock c true w1) as Hc2.
      destruct (setStreamingMode c true w1) as [[u|e] w2]; cbn in Hc2; eauto.
    - exists lastRetry, w1. split; [lia | reflexivity]. }
  destruct Hlw as [lr [w2 [Hc2 Hlw]]]. rewrite Hlw.
  destruct (timeout - (clock_now w - start) >? 0) eqn:Hrem; [|eauto].
  cbn [sleep].
  apply IH.
  - unfold pollInterval, ms in Hfuel. lia.
  - unfold clock_now in *. cbn [env].
    pose proof (sleep_at_least (Z.min pollInterval (timeout - (steady_clock_now (env w) - start)))
                  (env w2)) as Hs.
    unfold pollInterval, ms in *. lia.
Qed.

(** [waitForStreamingReady] returns a boolean on a valid handle, whatever the
    host answers, when the clock is monotone. *)
Lemma waitForStreamingReady_returns `{!MonotoneClock E}
    (fuel : nat) (c : ProHandClient) (timeout retryInterval : Z) (w : World E) :
  is_null (handle_ c) = false ->
  (1 <= fuel)%nat ->
  timeout <= (Z.of_nat fuel - 1) * pollInterval ->
  exists b w', waitForStreamingReady fuel c timeout retryInterval w = Some (Ok b, w').
Proof.
  intros Hh Hf Hfuel.
  destruct (waitForStreamingReady_no_throw fuel c timeout retryInterval w Hh)
    as [Hnone|Hsome]; [|exact Hsome].
  exfalso. rewrite (waitForStreamingReady_valid fuel c timeout retryInterval w Hh) in Hnone.
  destruct (sendPing c w) as [[u|e] w1]; [|discriminate].
  destruct (poll_loop_returns c timeout retryInterval (clock_now w1) fuel (clock_now w1)
              (mkWorld (sleep_for settleDelay (env w1)) (trace w1 ++ [EvSleep settleDelay])) Hf)
    as [[res w3] Hres].
  - unfold clock_now. cbn [env].
    pose proof (sleep_at_least settleDelay (env w1)) as Hs.
    unfold settleDelay, ms in *. lia.
  - rewrite Hres in Hnone. destruct res as [[|]|e]; [discriminate| |discriminate].
    destruct (isRunningState c w3); discriminate.
Qed.

(** C6. On a valid handle: (1) no exception leaves [waitForStreamingReady];
    (2) a turn of the loop whose re-assert of the enable command fails goes on
    to its sleep and to the next turn, with [lastRetry] unchanged, so the
    command is tried again; (3) the loop is left only by a poll that reports
    Running or, to give up, by the deadline having passed. *)
Theorem reassert_failure_is_swallowed
    (fuel : nat) (c : ProHandClient) (timeout retryInterval start lastRetry : Z)
    (w : World E) :
  is_null (handle_ c) = false ->
  (waitForStreamingReady fuel c timeout retryInterval w = None \/
   exists b w', waitForStreamingReady fuel c timeout retryInterval w = Some (Ok b, w'))
  /\
  (let w1 := snd (isRunningState c w) in
   let enable := prohand_call (handle_ c) (prohand_set_streaming_mode 1) (env w1) in
   clock_now w - start < timeout ->
   fst (prohand_call (handle_ c) prohand_is_running_state (env w)) <> 1 ->
   retryInterval <= clock_now w - lastRetry ->
   fst enable <> PROHAND_SUCCESS ->
   poll_loop (Datatypes.S fuel) c timeout retryInterval start lastRetry w =
   poll_loop fuel c timeout retryInterval start lastRetry
     (snd (sleep (Z.min pollInterval (timeout - (clock_now w - start)))
             (mkWorld (snd enable)
                (trace w1 ++ [EvCall (handle_ c) (prohand_set_streaming_mode 1) (fst enable)])))))
  /\
  (forall res w3,
     poll_loop fuel c timeout retryInterval start lastRetry w = Some (res, w3) ->
     res = Ok ReturnTrue \/ (res = Ok Break /\ timeout <= clock_now w3 - start))
  /\
  (MonotoneClock E -> (1 <= fuel)%nat ->
   timeout <= (Z.of_nat fuel - 1) * pollInterval ->
   exists b w', waitForStreamingReady fuel c timeout retryInterval w = Some (Ok b, w')).
Proof.
  intros Hh. split; [|split; [|split]].
  - apply waitForStreamingReady_no_throw. exact Hh.
  - intros w1 enable Hlt Hnr Hdue Hfail. subst w1 enable.
    rewrite (poll_loop_turn fuel c timeout retryInterval start lastRetry w Hh Hlt Hnr).
    destruct (clock_now w - lastRetry >=? retryInterval) eqn:Hge; [|lia].
    unfold reassert.
    rewrite (setStreamingMode_valid c true _ Hh). cbn zeta.
    destruct (_ =? PROHAND_SUCCESS) eqn:Hs.
    + apply Z.eqb_eq in Hs. contradiction.
    + destruct (checkResult_throws _ "setStreamingMode"
        (mkWorld (snd (prohand_call (handle_ c) (prohand_set_streaming_mode 1)
                         (env (snd (isRunningState c w)))))
           (trace (snd (isRunningState c w)) ++
            [EvCall (handle_ c) (prohand_set_streaming_mode 1)
               (fst (prohand_call (handle_ c) (prohand_set_streaming_mode 1)
                       (env (snd (isRunningState c w)))))])) Hfail) as [msg Hmsg].
      rewrite Hmsg. reflexivity.
  - intros res w3 Hloop.
    destruct (poll_loop_exit c timeout retryInterval start Hh _ _ _ _ _ Hloop)
      as [tl [_ [[Hres [Hdl _]] | [Hres _]]]]; auto.
  - intros Hclock Hf Hfuel.
    exact (waitForStreamingReady_returns fuel c timeout retryInterval w Hh Hf Hfuel).
Qed.

End Termination.

(** ** How long the call lasts on a virtual-exact clock *)

Section Duration.
Context {E : Type} `{Library E} `{!ExactClock E}.

Lemma call_clock (p : pointer) (a : ApiCall) (w : World E) :
  clock_now (snd (call p a w)) = clock_now w.
Proof.
  unfold call, clock_now. pose proof (call_instant p a (env w)) as Hi.
  destruct (prohand_call p a (env w)); exact Hi.
Qed.

Lemma isRunningState_instant (c : ProHandClient) (w : World E) :
  clock_now (snd (isRunningState c w)) = clock_now w.
Proof.
  unfold isRunningState, bind, checkHandle, throw, ret.
  destruct (is_null (handle_ c)); [reflexivity|].
  pose proof (call_clock (handle_ c) prohand_is_running_state w) as Hc.
  destruct (call (handle_ c) prohand_is_running_state w) as [[r|e] w1]; exact Hc.
Qed.

Lemma setStreamingMode_instant (c : ProHandClient) (b : bool) (w : World E) :
  clock_now (snd (setStreamingMode c b w)) = clock_now w.
Proof.
  unfold setStreamingMode, bind, checkHandle, throw, ret.
  destruct (is_null (handle_ c)); [reflexivity|].
  pose proof (call_clock (handle_ c) (prohand_set_streaming_mode (if b then 1 else 0)) w) as Hc.
  destruct (call (handle_ c) _ w) as [[r|e] w1]; cbn [snd] in *; [|exact Hc].
  pose proof (checkResult_same r "setStreamingMode" w1) as Hw.
  destruct (checkResult r "setStreamingMode" w1) as [[u|e] w2]; cbn [snd] in *;
    subst w2; exact Hc.
Qed.

Lemma sendPing_instant (c : ProHandClient) (w : World E) :
  clock_now (snd (sendPing c w)) = clock_now w.
Proof.
  unfold sendPing, bind, checkHandle, throw, ret.
  destruct (is_null (handle_ c)); [reflexivity|].
  pose proof (call_clock (handle_ c) prohand_send_ping w) as Hc.
  destruct (call (handle_ c) _ w) as [[r|e] w1]; cbn [snd] in *; [|exact Hc].
  pose proof (checkResult_same r "sendPing" w1) as Hw.
  destruct (checkResult r "sendPing" w1) as [[u|e] w2]; cbn [snd] in *;
    subst w2; exact Hc.
Qed.

(** The loop never sleeps past the deadline. *)
Lemma poll_loop_clock (c : ProHandClient) (timeout retryInterval start : Z) :
  forall (fuel : nat) (lastRetry : Z) (w w3 : World E) (res : Result LoopExit),
  poll_loop fuel c timeout retryInterval start lastRetry w = Some (res, w3) ->
  clock_now w <= clock_now w3 <= Z.max (clock_now w) (start + timeout).
Proof.
  induction fuel as [|fuel IH]; intros lastRetry w w3 res Hrun; [discriminate|].
  cbn [poll_loop] in Hrun.
  destruct (clock_now w - start >=? timeout) eqn:Hge.
  { inversion Hrun; subst. lia. }
  pose proof (isRunningState_instant c w) as Hc1.
  destruct (isRunningState c w) as [[[|]|e] w1]; cbn [snd] in Hc1;
    try (inversion Hrun; subst; lia).
  assert (Hlw : exists lr w2, clock_now w2 = clock_now w /\
     (if clock_now w - lastRetry >=? retryInterval
      then match setStreamingMode c true w1 with
           | (Ok _, w2) => (clock_now w, w2)
           | (Throw _, w2) => (lastRetry, w2)
           end
      else (lastRetry, w1)) = (lr, w2)).
  { destruct (clock_now w - lastRetry >=? retryInterval).
    - pose proof (setStreamingMode_instant c true w1) as Hc2.
      destruct (setStreamingMode c true w1) as [[u|e] w2]; cbn in Hc2;
        eexists; eexists; (split; [|reflexivity]); lia.
    - exists lastRetry, w1. split; [lia | reflexivity]. }
  destruct Hlw as [lr [w2 [Hc2 Hlw]]]. rewrite Hlw in Hrun.
  destruct (timeout - (clock_now w - start) >? 0) eqn:Hrem.
  - cbn [sleep] in Hrun. apply IH in Hrun.
    unfold clock_now in *. cbn [env] in Hrun.
    rewrite sleep_exact in Hrun by (unfold pollInterval, ms; lia).
    unfold pollInterval, ms in *. lia.
  - inversion Hrun; subst. lia.
Qed.

(** [waitForStreamingReady] lasts at most the longer of the settle delay and
    the timeout; when it gives up after a successful ping it lasts exactly
    that long. *)
Lemma waitForStreamingReady_duration
    (fuel : nat) (c : ProHandClient) (timeout retryInterval : Z)
    (w w' : World E) (res : Result bool) :
  waitForStreamingReady fuel c timeout retryInterval w = Some (res, w') ->
  clock_now w <= clock_now w' <= clock_now w + Z.max settleDelay timeout.
Proof.
  unfold waitForStreamingReady, checkHandle, throw, ret.
  assert (Hs : 0 <= settleDelay) by (unfold settleDelay, ms; lia).
  destruct (is_null (handle_ c)).
  { intros Hrun. inversion Hrun; subst. lia. }
  pose proof (sendPing_instant c w) as Hp.
  destruct (sendPing c w) as [[u|e] w1]; cbn [snd] in Hp.
  2:{ intros Hrun. inversion Hrun; subst. lia. }
  cbn [sleep].
  destruct (poll_loop fuel c timeout retryInterval (clock_now w1) (clock_now w1) _)
    as [[r3 w3]|] eqn:Hloop; [|discriminate].
  apply poll_loop_clock in Hloop.
  assert (Hsettle : clock_now (mkWorld (sleep_for settleDelay (env w1))
                                 (trace w1 ++ [EvSleep settleDelay]))
                    = clock_now w1 + settleDelay).
  { unfold clock_now. cbn [env]. apply sleep_exact. exact Hs. }
  rewrite Hsettle in Hloop.
  destruct r3 as [[|]|e]; intros Hrun.
  - inversion Hrun; subst. lia.
  - pose proof (isRunningState_instant c w3) as Hf.
    destruct (isRunningState c w3) as [rf wf]. cbn [snd] in Hf.
    inversion Hrun; subst. lia.
  - inversion Hrun; subst. lia.
Qed.

(** After a successful ping the call lasts at least the settle delay: a
    timeout shorter than the settle delay minus one poll interval is overrun
    by more than a poll interval, whatever the host does next. *)
Lemma settle_delay_outlasts_short_timeouts
    (fuel : nat) (c : ProHandClient) (timeout retryInterval : Z)
    (w w1 w' : World E) (res : Result bool) :
  is_null (handle_ c) = false ->
  sendPing c w = (Ok tt, w1) ->
  timeout + pollInterval < settleDelay ->
  waitForStreamingReady fuel c timeout retryInterval w = Some (res, w') ->
  timeout + pollInterval < clock_now w' - clock_now w.
Proof.
  intros Hh Hping Hshort.
  rewrite (waitForStreamingReady_valid fuel c timeout retryInterval w Hh).
  pose proof (sendPing_instant c w) as Hp. rewrite Hping in *. cbn [snd] in Hp.
  destruct (poll_loop fuel c timeout retryInterval (clock_now w1) (clock_now w1) _)
    as [[r3 w3]|] eqn:Hloop; [|discriminate].
  apply poll_loop_clock in Hloop.
  assert (Hsettle : clock_now (mkWorld (sleep_for settleDelay (env w1))
                                 (trace w1 ++ [EvSleep settleDelay]))
                    = clock_now w1 + settleDelay).
  { unfold clock_now. cbn [env]. apply sleep_exact. unfold settleDelay, ms. lia. }
  rewrite Hsettle in Hloop.
  destruct r3 as [[|]|e]; intros Hrun.
  - inversion Hrun; subst. lia.
  - pose proof (isRunningState_instant c w3) as Hf.
    destruct (isRunningState c w3) as [rf wf]. cbn [snd] in Hf.
    inversion Hrun; subst. lia.
  - inversion Hrun; subst. lia.
Qed.

End Duration.

(** ** The simulated host has a virtual-exact, monotone clock *)

Lemma host_call_clock (p : pointer) (a : ApiCall) (h : Host) :
  clock (snd (host_call p a h)) = clock h.
Proof.
  unfold host_call. destruct p; [|reflexivity].
  destruct a; try reflexivity.
  destruct (enabled =? 0); [reflexivity|].
  destruct (delivers h (enables h)); reflexivity.
Qed.

#[export] Instance HostExactClock : ExactClock Host.
Proof.
  split.
  - intros d s Hd. cbn. lia.
  - intros p c s. cbn. apply host_call_clock.
Qed.

#[export] Instance HostMonotoneClock : MonotoneClock Host.
Proof.
  split.
  - intros d s Hd. cbn. lia.
  - intros p c s. cbn. rewrite host_call_clock. lia.
Qed.

(** ** The loop on the simulated host *)

Ltac host_fields :=
  cbn [clock ping_result running enables delivers drop_result send_result
       statusq next_handle sleep_for steady_clock_now HostLibrary env trace fst snd] in *.

Section HostLoop.
Variables (c : ProHandClient) (k : ProHandClientHandle).
Hypothesis Hc : handle_ c = Some k.
Variables (timeout retryInterval start : Z).

Lemma client_valid : is_null (handle_ c) = false.
Proof. rewrite Hc. reflexivity. Qed.

Lemma host_isRunningState (h : Host) (tr : list Event) :
  isRunningState c (mkWorld h tr) =
    (Ok (running h),
     mkWorld h (tr ++ [EvCall (Some k) prohand_is_running_state (if running h then 1 else 0)])).
Proof.
  rewrite (isRunningState_valid c _ client_valid). rewrite Hc. cbn.
  destruct (running h); reflexivity.
Qed.

(** A turn in which no re-assert is due. *)
Lemma host_turn_idle (fuel : nat) (lastRetry : Z) (h : Host) (tr : list Event) :
  running h = false ->
  clock h - start < timeout ->
  clock h - lastRetry < retryInterval ->
  exists tr',
    poll_loop (Datatypes.S fuel) c timeout retryInterval start lastRetry (mkWorld h tr) =
    poll_loop fuel c timeout retryInterval start lastRetry
      (mkWorld (sleep_for (Z.min pollInterval (timeout - (clock h - start))) h) tr').
Proof.
  intros Hrun Hlt Hidle.
  rewrite (poll_loop_turn fuel c timeout retryInterval start lastRetry (mkWorld h tr)
             client_valid); cycle 1.
  - exact Hlt.
  - rewrite Hc. cbn. rewrite Hrun. lia.
  - unfold clock_now. cbn [env steady_clock_now HostLibrary].
    destruct (clock h - lastRetry >=? retryInterval) eqn:Hge; [lia|].
    rewrite host_isRunningState. cbn [snd fst sleep env trace].
    eexists. reflexivity.
Qed.

(** A turn in which the enable command is re-asserted. *)
Lemma host_turn_enable (fuel : nat) (lastRetry : Z) (h : Host) (tr : list Event) :
  running h = false ->
  clock h - start < timeout ->
  retryInterval <= clock h - lastRetry ->
  let en := host_call (Some k) (prohand_set_streaming_mode 1) h in
  exists tr',
    poll_loop (Datatypes.S fuel) c timeout retryInterval start lastRetry (mkWorld h tr) =
    poll_loop fuel c timeout retryInterval start
      (if fst en =? PROHAND_SUCCESS then clock h else lastRetry)
      (mkWorld (sleep_for (Z.min pollInterval (timeout - (clock h - start))) (snd en)) tr').
Proof.
  intros Hrun Hlt Hdue en.
  rewrite (poll_loop_turn fuel c timeout retryInterval start lastRetry (mkWorld h tr)
             client_valid); cycle 1.
  - exact Hlt.
  - rewrite Hc. cbn. rewrite Hrun. lia.
  - unfold clock_now. cbn [env steady_clock_now HostLibrary].
    destruct (clock h - lastRetry >=? retryInterval) eqn:Hge; [|lia].
    rewrite host_isRunningState. cbn [snd].
    unfold reassert. rewrite (setStreamingMode_valid c true _ client_valid).
    cbn zeta. rewrite Hc. cbn [env trace prohand_call HostLibrary]. fold en.
    destruct (fst en =? PROHAND_SUCCESS) eqn:Hs.
    + cbn [fst snd sleep env trace]. eexists. reflexivity.
    + apply Z.eqb_neq in Hs.
      match goal with
      | |- context [checkResult ?r ?o ?w] =>
          destruct (checkResult_throws r o w Hs) as [msg Hmsg]; rewrite Hmsg
      end.
      cbn [fst snd sleep env trace]. eexists. reflexivity.
Qed.

End HostLoop.

(** ** The schedule of the re-asserts on the simulated host *)

Lemma polls_covering_bounds (d : Z) :
  d <= pollInterval * polls_covering d < d + pollInterval.
Proof.
  unfold polls_covering, pollInterval, ms.
  Z.div_mod_to_equations. lia.
Qed.

Ltac timing := unfold settleDelay, pollInterval, ms in *.

Section HostSchedule.
Variables (c : ProHandClient) (k : ProHandClientHandle).
Hypothesis Hc : handle_ c = Some k.
Variables (timeout retryInterval start : Z).

Lemma host_loop_running_ends (fuel : nat) (lastRetry : Z) (h : Host) (tr : list Event) :
  running h = true ->
  (1 <= fuel)%nat ->
  ends_at (clock h) true (poll_loop fuel c timeout retryInterval start lastRetry (mkWorld h tr)).
Proof.
  intros Hrun Hf. destruct fuel as [|fuel]; [lia|].
  cbn [poll_loop]. unfold ends_at.
  destruct (clock_now (mkWorld h tr) - start >=? timeout).
  - exists Break, (mkWorld h tr). cbn. repeat split; [exact Hrun].
  - rewrite (host_isRunningState c k Hc). rewrite Hrun.
    eexists ReturnTrue, _. split; [reflexivity|]. cbn. repeat split. exact Hrun.
Qed.

(** [n] turns in a row in which the driver is not Running and no re-assert
    is due. *)
Lemma host_idle_turns (lastRetry : Z) :
  forall (n fuel : nat) (h : Host) (tr : list Event),
  running h = false ->
  enough timeout start fuel h ->
  clock h - start + Z.of_nat n * pollInterval <= timeout ->
  ((1 <= n)%nat -> clock h + (Z.of_nat n - 1) * pollInterval - lastRetry < retryInterval) ->
  exists fuel' h' tr',
    poll_loop fuel c timeout retryInterval start lastRetry (mkWorld h tr) =
    poll_loop fuel' c timeout retryInterval start lastRetry (mkWorld h' tr') /\
    enough timeout start fuel' h' /\
    clock h' = clock h + Z.of_nat n * pollInterval /\
    running h' = false /\ enables h' = enables h /\ delivers h' = delivers h /\
    drop_result h' = drop_result h.
Proof.
  induction n as [|n IH]; intros fuel h tr Hrun Hen Hfit Hidle.
  - exists fuel, h, tr. repeat split; try assumption; try apply Hen. lia.
  - destruct Hen as [Hf Hfuel]. destruct fuel as [|fuel]; [lia|].
    destruct (host_turn_idle c k Hc timeout retryInterval start fuel lastRetry h tr Hrun)
      as [tr' Heq]; [timing; lia | specialize (Hidle ltac:(lia)); timing; lia |].
    rewrite Heq. clear Heq.
    replace (Z.min pollInterval (timeout - (clock h - start))) with pollInterval
      by (timing; lia).
    destruct (IH fuel (sleep_for pollInterval h) tr') as [fuel' [h' [tr'' [Heq [Hen' Hrest]]]]].
    + exact Hrun.
    + unfold enough. host_fields. timing. split; lia.
    + host_fields. timing. lia.
    + intros Hn. specialize (Hidle ltac:(lia)). host_fields. timing. lia.
    + exists fuel', h', tr''. split; [exact Heq|]. split; [exact Hen'|].
      destruct Hrest as [Hclk [Hr [He [Hd Hdr]]]]. host_fields.
      repeat split; try assumption. timing. lia.
Qed.

(** The driver is not Running and no re-assert falls due in any of the [n]
    turns that are left before the deadline: the loop ends at the deadline. *)
Lemma host_idle_out (lastRetry : Z) :
  forall (n fuel : nat) (h : Host) (tr : list Event),
  running h = false ->
  enough timeout start fuel h ->
  timeout <= clock h - start + Z.of_nat n * pollInterval ->
  ((1 <= n)%nat ->
   clock h - start + (Z.of_nat n - 1) * pollInterval < timeout /\
   clock h + (Z.of_nat n - 1) * pollInterval - lastRetry < retryInterval) ->
  ends_at (Z.max (clock h) (start + timeout)) false
    (poll_loop fuel c timeout retryInterval start lastRetry (mkWorld h tr)).
Proof.
  induction n as [|n IH]; intros fuel h tr Hrun [Hf Hfuel] Hcover Hidle;
    (destruct fuel as [|fuel]; [lia|]).
  - cbn [poll_loop]. unfold clock_now. cbn [env steady_clock_now HostLibrary].
    destruct (clock h - start >=? timeout) eqn:Hge; [|lia].
    exists Break, (mkWorld h tr). cbn [env]. repeat split; try assumption; try lia.
    discriminate.
  - destruct (Hidle ltac:(lia)) as [Hlt Hid].
    destruct (host_turn_idle c k Hc timeout retryInterval start fuel lastRetry h tr Hrun)
      as [tr' Heq]; [timing; lia | timing; lia |].
    rewrite Heq. clear Heq.
    set (h1 := sleep_for (Z.min pollInterval (timeout - (clock h - start))) h).
    assert (Hclk : clock h1 = clock h + Z.min pollInterval (timeout - (clock h - start))).
    { unfold h1. host_fields. timing. lia. }
    replace (Z.max (clock h) (start + timeout)) with (Z.max (clock h1) (start + timeout))
      by (rewrite Hclk; timing; lia).
    apply IH.
    + exact Hrun.
    + unfold enough. rewrite Hclk. timing. split; lia.
    + rewrite Hclk. timing. lia.
    + intros Hn. rewrite Hclk. timing. lia.
Qed.


(** A turn in which the enable command is re-asserted: it is delivered or
    lost as the transport decides, and the retry timer restarts unless the
    command failed. *)
Lemma host_enable_turn (lastRetry : Z) (fuel : nat) (h : Host) (tr : list Event) :
  running h = false ->
  enough timeout start fuel h ->
  clock h - start < timeout ->
  retryInterval <= clock h - lastRetry ->
  exists fuel' h' tr',
    poll_loop fuel c timeout retryInterval start lastRetry (mkWorld h tr) =
    poll_loop fuel' c timeout retryInterval start
      (if delivers h (enables h) || (drop_result h =? PROHAND_SUCCESS) then clock h
       else lastRetry)
      (mkWorld h' tr') /\
    enough timeout start fuel' h' /\
    clock h' = clock h + Z.min pollInterval (timeout - (clock h - start)) /\
    running h' = delivers h (enables h) /\
    enables h' = Datatypes.S (enables h) /\ delivers h' = delivers h /\
    drop_result h' = drop_result h.
Proof.
  intros Hrun [Hf Hfuel] Hlt Hdue. destruct fuel as [|fuel]; [lia|].
  destruct (host_turn_enable c k Hc timeout retryInterval start fuel lastRetry h tr
              Hrun Hlt Hdue) as [tr' Heq].
  rewrite Heq. clear Heq. unfold host_call. cbn [Z.eqb].
  destruct (delivers h (enables h)) eqn:Hdel; cbn [fst snd orb].
  - eexists fuel, _, tr'. split; [reflexivity|].
    unfold enough. host_fields. timing. repeat split; try reflexivity; lia.
  - unfold PROHAND_SUCCESS.
    eexists fuel, _, tr'. split; [reflexivity|].
    unfold enough. host_fields. timing. repeat split; try assumption; try reflexivity; lia.
Qed.

(** The loop after the settle delay, on the transport that loses every first
    enable command: whether and when the driver is Running at its end. *)
Lemma host_schedule (fuel : nat) (h : Host) (tr : list Event) :
  running h = false ->
  delivers h = lose_every_first ->
  clock h = start + settleDelay ->
  enough timeout start fuel h ->
  let n := if Nat.odd (enables h) then first_reassert retryInterval
           else second_reassert retryInterval (drop_result h =? PROHAND_SUCCESS) in
  ends_at (start + (if n <? timeout then Z.min (n + pollInterval) timeout
                    else Z.max settleDelay timeout))
          (n <? timeout)
          (poll_loop fuel c timeout retryInterval start start (mkWorld h tr)).
Proof.
  intros Hrun Hlossy Hclk Hen n.
  pose proof (polls_covering_bounds (Z.max 0 (retryInterval - settleDelay))) as Hkf.
  pose proof (polls_covering_bounds retryInterval) as Hpc.
  assert (Hn : first_reassert retryInterval <= n).
  { unfold n, second_reassert. destruct (Nat.odd (enables h)); [lia|].
    destruct (drop_result h =? PROHAND_SUCCESS); timing; lia. }
  unfold first_reassert in *.
  set (kf := polls_covering (Z.max 0 (retryInterval - settleDelay))) in *.
  set (pc := polls_covering retryInterval) in *.
  destruct (Z.ltb_spec (settleDelay + pollInterval * kf) timeout) as [Hfirst|Hfirst].
  - (* the first re-assert is made *)
    destruct (host_idle_turns start (Z.to_nat kf) fuel h tr Hrun Hen)
      as [fuel1 [h1 [tr1 [Heq1 [Hen1 [Hclk1 [Hrun1 [He1 [Hd1 Hdr1]]]]]]]]].
    { timing. lia. }
    { intros Hk. timing. lia. }
    rewrite Heq1. clear Heq1.
    assert (Hc1 : clock h1 = start + (settleDelay + pollInterval * kf)) by (timing; lia).
    destruct (host_enable_turn start fuel1 h1 tr1 Hrun1 Hen1)
      as [fuel2 [h2 [tr2 [Heq2 [Hen2 [Hclk2 [Hrun2 [He2 [Hd2 Hdr2]]]]]]]]].
    { timing. lia. }
    { timing. lia. }
    rewrite Heq2. clear Heq2.
    rewrite Hd1, He1, Hlossy in *. unfold lose_every_first in *.
    destruct (Nat.odd (enables h)) eqn:Hodd.
    + (* it is delivered *)
      subst n. cbn [orb].
      destruct (Z.ltb_spec (settleDelay + pollInterval * kf) timeout) as [_|]; [|lia].
      replace (start + Z.min (settleDelay + pollInterval * kf + pollInterval) timeout)
        with (clock h2) by (timing; lia).
      apply host_loop_running_ends; [exact Hrun2 | apply Hen2].
    + (* it is lost *)
      cbn [orb] in *. rewrite Hdr1 in *.
      unfold second_reassert, first_reassert in n. fold kf pc in n.
      set (ack := drop_result h =? PROHAND_SUCCESS) in *.
      set (lastRetry := if ack then clock h1 else start).
      set (m := if ack then Z.max 1 pc else 1) in *.
      assert (Hm : 1 <= m) by (unfold m; destruct ack; lia).
      subst n.
      destruct (Z.ltb_spec (settleDelay + pollInterval * kf + pollInterval * m) timeout)
        as [Hsecond|Hsecond].
      * (* the second re-assert is made, and delivered *)
        destruct (host_idle_turns lastRetry (Z.to_nat (m - 1)) fuel2 h2 tr2 Hrun2 Hen2)
          as [fuel3 [h3 [tr3 [Heq3 [Hen3 [Hclk3 [Hrun3 [He3 [Hd3 Hdr3]]]]]]]]].
        { timing. lia. }
        { intros Hk. unfold lastRetry, m in *. destruct ack; timing; lia. }
        rewrite Heq3. clear Heq3.
        destruct (host_enable_turn lastRetry fuel3 h3 tr3 Hrun3 Hen3)
          as [fuel4 [h4 [tr4 [Heq4 [Hen4 [Hclk4 [Hrun4 _]]]]]]].
        { timing. lia. }
        { unfold lastRetry, m in *. destruct ack; timing; lia. }
        rewrite Heq4. clear Heq4.
        rewrite Hd3, He3, Hd2, He2, Nat.odd_succ, <- Nat.negb_odd, Hodd in Hrun4.
        replace (start + Z.min (settleDelay + pollInterval * kf + pollInterval * m
                                + pollInterval) timeout)
          with (clock h4) by (timing; lia).
        apply host_loop_running_ends; [exact Hrun4 | apply Hen4].
      * (* the deadline comes first *)
        replace (start + Z.max settleDelay timeout)
          with (Z.max (clock h2) (start + timeout)) by (timing; lia).
        apply (host_idle_out lastRetry
                 (Z.to_nat (polls_covering (timeout - (clock h2 - start)))));
          [exact Hrun2 | exact Hen2 | |];
          pose proof (polls_covering_bounds (timeout - (clock h2 - start))) as Hq;
          set (q := polls_covering (timeout - (clock h2 - start))) in *.
        { timing. lia. }
        { intros Hk. unfold lastRetry, m in *. destruct ack; timing; lia. }
  - (* the deadline comes before the first re-assert *)
    destruct (Z.ltb_spec n timeout) as [|_]; [lia|].
    replace (start + Z.max settleDelay timeout)
      with (Z.max (clock h) (start + timeout)) by (timing; lia).
    apply (host_idle_out start (Z.to_nat (polls_covering (timeout - settleDelay))));
      [exact Hrun | exact Hen | |];
      pose proof (polls_covering_bounds (timeout - settleDelay)) as Hq;
      set (q := polls_covering (timeout - settleDelay)) in *.
    { timing. lia. }
    { intros Hk. timing. lia. }
Qed.

End HostSchedule.

Section HostWait.
Variables (c : ProHandClient) (k : ProHandClientHandle).
Hypothesis Hc : handle_ c = Some k.
Variables (timeout retryInterval : Z).

(** The whole call on a host that answers the ping: what the loop ends in is
    what the call returns. *)
Lemma host_wait_ends (fuel : nat) (h : Host) (tr : list Event) (t : Z) (b : bool) :
  ping_result h = PROHAND_SUCCESS ->
  ends_at t b
    (poll_loop fuel c timeout retryInterval (clock h) (clock h)
       (mkWorld (sleep_for settleDelay h)
          (tr ++ [EvCall (Some k) prohand_send_ping PROHAND_SUCCESS] ++ [EvSleep settleDelay]))) ->
  exists w', waitForStreamingReady fuel c timeout retryInterval (mkWorld h tr) = Some (Ok b, w')
             /\ clock (env w') = t /\ running (env w') = b.
Proof.
  intros Hping [x [w3 [Hloop [Hc3 [Hr Hx]]]]].
  rewrite (waitForStreamingReady_valid fuel c timeout retryInterval _ (client_valid c k Hc)).
  rewrite (sendPing_valid c _ (client_valid c k Hc)). rewrite Hc.
  cbn [env trace prohand_call HostLibrary host_call]. rewrite Hping.
  rewrite checkResult_success.
  unfold clock_now. cbn [env trace steady_clock_now HostLibrary].
  rewrite <- app_assoc. rewrite Hloop.
  destruct x.
  - rewrite (Hx eq_refl) in *. exists w3. repeat split; assumption.
  - destruct w3 as [h3 tr3]. rewrite (host_isRunningState c k Hc). cbn in Hr, Hc3.
    rewrite Hr. eexists. repeat split; assumption.
Qed.

End HostWait.




(** C1. A timeout of 0.1 s on a host that never reports Running: the call
    returns [false] 0.2 s after it was made, which is later than the timeout
    plus one poll interval (0.15 s). The settle delay is slept in full
    whatever the timeout. *)
Theorem waitForStreamingReady_short_timeout_overruns :
  let w := fresh (idle_host lose_all PROHAND_SUCCESS) in
  exists w',
    waitForStreamingReady 1 client0 (ms 100) default_retryInterval w = Some (Ok false, w') /\
    clock_now w' - clock_now w = ms 200 /\
    ms 100 + pollInterval < clock_now w' - clock_now w /\
    trace w' = [EvCall (Some 0%nat) prohand_send_ping 0;
                EvSleep settleDelay;
                EvCall (Some 0%nat) prohand_is_running_state 0].
Proof.
  eexists. split; [vm_compute; reflexivity|].
  split; [reflexivity|]. split; reflexivity.
Qed.

(** ** Arity checks, error surfacing and null handles, for every operation *)

Lemma some_eq {A} (x y : A) : Some x = Some y -> x = y.
Proof. intros Heq. injection Heq as Heq. exact Heq. Qed.

Lemma size_ne_true {A} (v : list A) (n : nat) : List.length v <> n -> size_ne v n = true.
Proof. intros Hn. unfold size_ne. apply negb_true_iff. apply Nat.eqb_neq. exact Hn. Qed.

Lemma size_ne_one {A} (v : list A) (n : nat) :
  Exists (fun len => len <> n) [List.length v] -> size_ne v n = true.
Proof.
  intros Hex. inversion Hex as [? ? Hh|? ? Ht]; subst.
  - apply size_ne_true. exact Hh.
  - inversion Ht.
Qed.

Lemma size_ne_two {A B} (v : list A) (u : list B) (n : nat) :
  Exists (fun len => len <> n) [List.length v; List.length u] ->
  size_ne v n || size_ne u n = true.
Proof.
  intros Hex. apply orb_true_iff.
  inversion Hex as [? ? Hh|? ? Ht]; subst.
  - left. apply size_ne_true. exact Hh.
  - right. apply size_ne_one. exact Ht.
Qed.

Ltac unfold_ops :=
  unfold returning, setWristLimits, isConnected, sendPing, setStreamingMode,
         isRunningState, sendRotaryCommands, sendLinearCommands, sendRotaryStreams,
         sendLinearStreams, sendWristCommands, sendWristStreams, sendHandCommands,
         sendHandStreams, sendZeroCalibration, tryRecvStatus,
         bind, checkHandle, throw, ret.

Lemma size_ne_three {A B C} (v : list A) (u : list B) (t : list C) (n : nat) :
  Exists (fun len => len <> n) [List.length v; List.length u; List.length t] ->
  size_ne v n || size_ne u n || size_ne t n = true.
Proof.
  intros Hex. apply orb_true_iff.
  inversion Hex as [? ? Hh|? ? Ht]; subst.
  - left. apply orb_true_iff. left. apply size_ne_true. exact Hh.
  - apply size_ne_two in Ht. apply orb_true_iff in Ht. destruct Ht as [Hu|Ht].
    + left. apply orb_true_iff. right. exact Hu.
    + right. exact Ht.
Qed.

Section Operations.
Context {E : Type} `{Library E}.

(** C5. A pose command, a zero calibration or a setting of the wrist limits
    called with an array whose size is not the expected one throws and leaves
    the world as it was: no function of the C interface is called, so nothing
    is transmitted, padded or truncated. On a valid handle the exception is
    the one of the size check (on a null handle the handle check comes
    first). *)
Theorem wrong_arity_is_rejected
    (fuel : nat) (op : Operation) (c : ProHandClient) (w : World E) (n : nat) :
  expected_arity op = Some n ->
  Exists (fun len => len <> n) (input_sizes op) ->
  (exists e, invoke fuel op c w = Some (Throw e, w)) /\
  (is_null (handle_ c) = false ->
   invoke fuel op c w = Some (Throw (SdkError (arity_message op)), w)).
Proof.
  intros Hexp Hbad.
  destruct op; cbn in Hexp; try discriminate; inversion Hexp; subst n; clear Hexp;
    cbn [input_sizes] in Hbad;
    first [ apply size_ne_three in Hbad | apply size_ne_two in Hbad
          | apply size_ne_one in Hbad ];
    cbn [invoke arity_message];
    unfold returning, setWristLimits, sendRotaryCommands, sendLinearCommands, sendRotaryStreams,
           sendLinearStreams, sendWristCommands, sendWristStreams, sendHandCommands,
           sendHandStreams, sendZeroCalibration, bind, checkHandle, throw, ret;
    rewrite Hbad;
    (split; [destruct (is_null (handle_ c)); eexists; reflexivity
            | intros Hh; rewrite Hh; reflexivity]).
Qed.

(** On a null handle every operation throws the handle error before anything
    else, except [isConnected], which answers [false]. *)
Lemma null_handle_is_rejected
    (fuel : nat) (op : Operation) (c : ProHandClient) (w : World E) :
  is_null (handle_ c) = true ->
  invoke fuel op c w =
    Some (match op with
          | OpIsConnected => Ok (VBool false)
          | _ => Throw (SdkError "Client handle is null")
          end, w).
Proof.
  intros Hnull.
  destruct op; cbn [invoke]; unfold waitForStreamingReady; unfold_ops;
    rewrite Hnull; reflexivity.
Qed.

(** A checked call whose C function does not return [PROHAND_SUCCESS]
    throws. *)
Lemma failed_call_throws
    (fuel : nat) (op : Operation) (a : ApiCall) (c : ProHandClient) (w : World E) :
  underlying op = Some a ->
  is_null (handle_ c) = false ->
  fst (prohand_call (handle_ c) a (env w)) <> PROHAND_SUCCESS ->
  exists e w', invoke fuel op c w = Some (Throw e, w').
Proof.
  intros Hu Hh Hfail.
  destruct op; unfold underlying in Hu; try discriminate;
    apply some_eq in Hu; subst a;
    cbn [invoke]; unfold_ops; rewrite Hh;
    repeat match goal with
           | |- context [if ?b then _ else _] =>
               lazymatch b with
               | context [size_ne] => destruct b; [eexists; eexists; reflexivity|]
               end
           end;
    unfold call;
    match goal with
    | |- context [prohand_call ?p ?a ?s] =>
        destruct (prohand_call p a s) as [r s'] eqn:Hcall
    end;
    match goal with
    | |- context [checkResult ?r ?o ?w1] =>
        destruct (checkResult_throws r o w1 Hfail) as [msg Hmsg]
    end;
    unfold checkResult, throw, ret in *; rewrite Hmsg;
    eexists; eexists; reflexivity.
Qed.

(** [tryRecvStatus] on a valid handle, by the sign of what the C function
    returns. *)
Lemma tryRecvStatus_valid (c : ProHandClient) (w : World E) :
  is_null (handle_ c) = false ->
  let r := prohand_try_recv_status (handle_ c) (env w) in
  let result := fst (fst r) in
  let statusInfo := snd (fst r) in
  let w' := mkWorld (snd r) (trace w ++ [EvRecv (handle_ c) result]) in
  (0 < result ->
   tryRecvStatus c w =
     (Ok (Some {| isValid := negb (is_valid statusInfo =? 0);
                  statusType := status_type statusInfo;
                  rotaryPositions := map (rotary_positions statusInfo) (seq 0 16);
                  linearPositions := map (linear_positions statusInfo) (seq 0 2) |}), w'))
  /\ (result = 0 -> tryRecvStatus c w = (Ok None, w'))
  /\ (result < 0 -> exists e, tryRecvStatus c w = (Throw e, w')).
Proof.
  intros Hh r result statusInfo w'. subst r result statusInfo w'.
  unfold tryRecvStatus, bind, checkHandle, recv, ret. rewrite Hh.
  destruct (prohand_try_recv_status (handle_ c) (env w)) as [[result info] s'].
  cbn [fst snd]. repeat split.
  - intros Hpos. destruct (result >? 0) eqn:Hgt; [reflexivity|lia].
  - intros Hz. subst result. reflexivity.
  - intros Hneg. destruct (result >? 0) eqn:Hgt; [lia|].
    destruct (result =? 0) eqn:Hz; [lia|].
    destruct (checkResult_throws result "tryRecvStatus"
                (mkWorld s' (trace w ++ [EvRecv (handle_ c) result]))) as [msg Hmsg];
      [unfold PROHAND_SUCCESS; lia|].
    rewrite Hmsg. eexists. reflexivity.
Qed.

(** C7 (amended). Every operation other than [isConnected],
    [isRunningState] and [waitForStreamingReady] throws on a null handle;
    every operation that is one checked call throws when its C function does
    not return success, and [tryRecvStatus] throws on a negative return. The
    three exceptions answer [false] instead: [isConnected] on a null handle,
    [isRunningState] on a negative return, [waitForStreamingReady] on a failed
    ping. *)
Theorem failures_surface_as_exceptions
    (fuel : nat) (op : Operation) (c : ProHandClient) (w : World E) :
  (answers_boolean op = false -> is_null (handle_ c) = true ->
   invoke fuel op c w = Some (Throw (SdkError "Client handle is null"), w))
  /\
  (forall a, underlying op = Some a -> is_null (handle_ c) = false ->
   fst (prohand_call (handle_ c) a (env w)) <> PROHAND_SUCCESS ->
   exists e w', invoke fuel op c w = Some (Throw e, w'))
  /\
  (op = OpTryRecvStatus -> is_null (handle_ c) = false ->
   fst (fst (prohand_try_recv_status (handle_ c) (env w))) < 0 ->
   exists e w', invoke fuel op c w = Some (Throw e, w'))
  /\
  (op = OpIsConnected -> is_null (handle_ c) = true ->
   invoke fuel op c w = Some (Ok (VBool false), w))
  /\
  (op = OpIsRunningState -> is_null (handle_ c) = false ->
   fst (prohand_call (handle_ c) prohand_is_running_state (env w)) < 0 ->
   exists w', invoke fuel op c w = Some (Ok (VBool false), w'))
  /\
  (forall timeout retryInterval,
   op = OpWaitForStreamingReady timeout retryInterval -> is_null (handle_ c) = false ->
   fst (prohand_call (handle_ c) prohand_send_ping (env w)) <> PROHAND_SUCCESS ->
   exists w', invoke fuel op c w = Some (Ok (VBool false), w')).
Proof.
  repeat split.
  - intros Hb Hnull. rewrite (null_handle_is_rejected fuel op c w Hnull).
    destruct op; try reflexivity; discriminate.
  - intros a Hu Hh Hfail. exact (failed_call_throws fuel op a c w Hu Hh Hfail).
  - intros Hop Hh Hneg. subst op. cbn [invoke]. unfold returning.
    destruct (tryRecvStatus_valid c w Hh) as [_ [_ Hthrow]].
    destruct (Hthrow Hneg) as [e He]. rewrite He. eauto.
  - intros Hop Hnull. subst op. apply (null_handle_is_rejected fuel OpIsConnected c w Hnull).
  - intros Hop Hh Hneg. subst op. cbn [invoke]. unfold returning.
    rewrite (isRunningState_valid c w Hh).
    destruct (_ =? 1) eqn:H1; [lia|]. eauto.
  - intros timeout retryInterval Hop Hh Hfail. subst op. cbn [invoke].
    rewrite (failed_ping_returns_false fuel c timeout retryInterval w Hh Hfail).
    eauto.
Qed.

End Operations.

(** C7 as stated fails: [isConnected] on a null handle does not throw, it
    answers [false], and nothing is sent. *)
Lemma isConnected_null_handle_returns_false :
  is_null (handle_ null_client) = true /\
  answers_boolean OpIsConnected = true /\
  invoke 0 OpIsConnected null_client (fresh (idle_host lose_none PROHAND_SUCCESS)) =
    Some (Ok (VBool false), fresh (idle_host lose_none PROHAND_SUCCESS)).
Proof. repeat split. Qed.

(** ** Status polling *)

Lemma assign_length (first : nat -> float32) (n : nat) : List.length (assign first n) = n.
Proof. unfold assign. rewrite length_map, length_seq. reflexivity. Qed.

Lemma assign_nth (first : nat -> float32) (n i : nat) :
  (i < n)%nat -> nth i (assign first n) 0 = first i.
Proof.
  intros Hi. unfold assign.
  rewrite (nth_indep _ 0 (first 0%nat)) by (rewrite length_map, length_seq; exact Hi).
  rewrite map_nth. rewrite seq_nth by exact Hi. reflexivity.
Qed.

(** On the simulated host the queued messages come out oldest first, one per
    call, and every call after the queue is empty returns nothing. *)
Lemma host_status_drain (c : ProHandClient) :
  is_null (handle_ c) = false ->
  forall (n : nat) (h : Host) (tr : list Event),
  fst (poll_status n c (mkWorld h tr)) =
    map (fun m => Ok (Some (hand_status_of m))) (firstn n (statusq h))
    ++ repeat (Ok None) (n - List.length (statusq h)).
Proof.
  intros Hh. induction n as [|n IH]; intros h tr; [reflexivity|].
  cbn [poll_status].
  unfold tryRecvStatus, bind, checkHandle, recv, ret. rewrite Hh.
  destruct (handle_ c) as [k|] eqn:Hk; [|discriminate].
  cbn [env trace prohand_try_recv_status HostLibrary host_recv].
  destruct (statusq h) as [|m q] eqn:Hq.
  - cbn [fst snd Z.gtb Z.compare Z.eqb].
    specialize (IH h (tr ++ [EvRecv (Some k) 0])).
    destruct (poll_status n c _) as [rs w2]. cbn [fst] in *.
    rewrite IH, Hq. cbn [firstn List.length map app].
    rewrite firstn_nil, Nat.sub_0_r. reflexivity.
  - cbn [fst snd Z.gtb Z.compare Z.eqb].
    match goal with
    | |- context [poll_status n c ?w1] =>
        specialize (IH (env w1) (trace w1)); destruct (poll_status n c w1) as [rs w2] eqn:Hp
    end.
    cbn [env trace] in IH. rewrite Hp in IH. cbn [fst statusq] in *.
    rewrite IH. reflexivity.
Qed.

(** C8. [tryRecvStatus] on a valid handle makes one call of the C function
    and no sleep, and then: on a positive return it gives one status whose
    rotary field has the 16 and whose linear field has the 2 entries of the
    wire structure, in order; on a zero return it gives nothing; on a negative
    return it throws. On the simulated host, calls repeated on a queue of
    messages return them one by one and then nothing. *)
Theorem tryRecvStatus_outcomes {E : Type} `{Library E} (c : ProHandClient) (w : World E) :
  is_null (handle_ c) = false ->
  let r := prohand_try_recv_status (handle_ c) (env w) in
  let result := fst (fst r) in
  let statusInfo := snd (fst r) in
  let w' := mkWorld (snd r) (trace w ++ [EvRecv (handle_ c) result]) in
  (0 < result ->
   exists st,
     tryRecvStatus c w = (Ok (Some st), w') /\
     List.length (rotaryPositions st) = 16%nat /\
     List.length (linearPositions st) = 2%nat /\
     (forall i, (i < 16)%nat -> nth i (rotaryPositions st) 0 = rotary_positions statusInfo i) /\
     (forall i, (i < 2)%nat -> nth i (linearPositions st) 0 = linear_positions statusInfo i) /\
     isValid st = negb (is_valid statusInfo =? 0) /\
     statusType st = status_type statusInfo)
  /\ (result = 0 -> tryRecvStatus c w = (Ok None, w'))
  /\ (result < 0 -> exists e, tryRecvStatus c w = (Throw e, w'))
  /\ (forall (n : nat) (h : Host) (tr : list Event),
        fst (poll_status n c (mkWorld h tr)) =
          map (fun m => Ok (Some (hand_status_of m))) (firstn n (statusq h))
          ++ repeat (Ok None) (n - List.length (statusq h))).
Proof.
  intros Hh r result statusInfo w'.
  destruct (tryRecvStatus_valid c w Hh) as [Hpos [Hzero Hneg]].
  fold r in Hpos, Hzero, Hneg. fold result in Hpos, Hzero, Hneg.
  fold statusInfo in Hpos. fold w' in Hpos, Hzero, Hneg.
  split; [|split; [exact Hzero | split; [exact Hneg | exact (host_status_drain c Hh)]]].
  intros Hgt. eexists. split; [exact (Hpos Hgt)|].
  cbn [rotaryPositions linearPositions isValid statusType].
  split; [apply (assign_length _ 16)|].
  split; [apply (assign_length _ 2)|].
  split; [intros i Hi; apply (assign_nth _ 16 i Hi)|].
  split; [intros i Hi; apply (assign_nth _ 2 i Hi)|].
  split; reflexivity.
Qed.

(** ** Lifetime of the handle *)

Lemma destroyed_snoc (tr : list Event) (p : pointer) :
  destroyed (tr ++ [EvDestroy p]) = destroyed tr ++ [p].
Proof. unfold destroyed. rewrite flat_map_app. reflexivity. Qed.

Lemma NoDup_snoc {A} (l : list A) (x : A) : NoDup l -> ~ In x l -> NoDup (l ++ [x]).
Proof.
  intros Hl Hx. apply NoDup_app; [exact Hl | repeat constructor; intros [] |].
  intros a Ha [Heq|[]]. subst. contradiction.
Qed.

Ltac heap_cases :=
  unfold store in *;
  repeat match goal with
         | H : context [Nat.eqb ?a ?b] |- _ => destruct (Nat.eqb_spec a b)
         | |- context [Nat.eqb ?a ?b] => destruct (Nat.eqb_spec a b)
         end;
  subst; cbn [handle_ moved_from] in *; try discriminate; try congruence.

(** Two different addresses cannot hold the same handle. *)
Ltac owner_clash Hown :=
  try solve [eauto];
  exfalso;
  match goal with
  | Ha : handle_ (?hp ?a) = Some ?x, Hb : handle_ (?hp ?b) = Some ?x, Hn : ?a <> ?b |- _ =>
      apply Hn; exact (Hown a b x Ha Hb)
  end.

Section Lifetime.
Context {E : Type} `{Library E}.

(** Destroying the handle of its one owner keeps the record of destructions
    free of duplicates, and no other owner's handle is in it. *)
Lemma destroy_owned (hp : Heap) (tr : list Event) (a : nat) (h : ProHandClientHandle) :
  sole_owners hp tr ->
  handle_ (hp a) = Some h ->
  NoDup (destroyed (tr ++ [EvDestroy (Some h)])) /\
  ~ In None (destroyed (tr ++ [EvDestroy (Some h)])) /\
  (forall b h', b <> a -> handle_ (hp b) = Some h' ->
     ~ In (Some h') (destroyed (tr ++ [EvDestroy (Some h)]))).
Proof.
  intros [Hown [Hlive [Hnd Hnull]]] Ha. rewrite destroyed_snoc.
  split; [|split].
  - apply NoDup_snoc; [exact Hnd | exact (Hlive a h Ha)].
  - intros Hin. apply in_app_or in Hin. destruct Hin as [Hin|[Heq|[]]];
      [contradiction | discriminate].
  - intros b h' Hba Hb Hin. apply in_app_or in Hin. destruct Hin as [Hin|[Heq|[]]].
    + exact (Hlive b h' Hb Hin).
    + injection Heq as Heq. subst h'. apply Hba. exact (Hown b a h Hb Ha).
Qed.

Lemma destructor_keeps (this : nat) (hp : Heap) (w : World E) :
  sole_owners hp (trace w) ->
  exists hp' w',
    destructor this hp w = (Ok hp', w') /\
    sole_owners hp' (trace w') /\
    handle_ (hp' this) = None /\
    (handle_ (hp this) = None -> w' = w).
Proof.
  intros Hinv. unfold destructor, bind, destroy, ret.
  destruct (handle_ (hp this)) as [h|] eqn:Hthis; cbn [is_null negb].
  - eexists. eexists. split; [reflexivity|]. cbn [trace].
    destruct (destroy_owned hp (trace w) this h Hinv Hthis) as [Hnd [Hnull Hothers]].
    destruct Hinv as [Hown [Hlive _]].
    split; [|split; [heap_cases | discriminate]].
    repeat split; try assumption.
    + intros a b x Hax Hbx. heap_cases; eauto.
    + intros a x Hax. heap_cases; eauto.
  - exists hp, w. repeat split; try apply Hinv; try assumption.
Qed.

Lemma move_construct_keeps (this other : nat) (hp : Heap) (w : World E) :
  sole_owners hp (trace w) ->
  exists hp',
    move_construct this other hp w = (Ok hp', w) /\
    sole_owners hp' (trace w) /\
    handle_ (hp' other) = None /\
    (this <> other -> handle_ (hp' this) = handle_ (hp other)).
Proof.
  intros [Hown [Hlive [Hnd Hnull]]]. unfold move_construct, ret.
  eexists. split; [reflexivity|].
  split; [|split; [heap_cases | intros Hne; heap_cases]].
  repeat split; try assumption.
  - intros a b x Hax Hbx. heap_cases; owner_clash Hown.
  - intros a x Hax. heap_cases; eauto.
Qed.

Lemma move_assign_keeps (this other : nat) (hp : Heap) (w : World E) :
  sole_owners hp (trace w) ->
  exists hp' w',
    move_assign this other hp w = (Ok hp', w') /\
    sole_owners hp' (trace w') /\
    (this <> other -> handle_ (hp' other) = None /\ handle_ (hp' this) = handle_ (hp other)) /\
    (this = other -> hp' = hp /\ w' = w).
Proof.
  intros Hinv. unfold move_assign, bind, destroy, ret.
  destruct (Nat.eqb_spec this other) as [Heq|Hne]; cbn [negb].
  { exists hp, w. repeat split; try apply Hinv; try assumption; contradiction. }
  destruct (handle_ (hp this)) as [h|] eqn:Hthis; cbn [is_null negb].
  - eexists. eexists. split; [reflexivity|]. cbn [trace].
    destruct (destroy_owned hp (trace w) this h Hinv Hthis) as [Hnd [Hnull Hothers]].
    destruct Hinv as [Hown [Hlive _]].
    split; [|split; [intros _; split; heap_cases | contradiction]].
    repeat split; try assumption.
    + intros a b x Hax Hbx. heap_cases; owner_clash Hown.
    + intros a x Hax. heap_cases; eauto.
  - eexists. eexists. split; [reflexivity|].
    destruct Hinv as [Hown [Hlive [Hnd Hnull]]].
    split; [|split; [intros _; split; heap_cases | contradiction]].
    repeat split; try assumption.
    + intros a b x Hax Hbx. heap_cases; owner_clash Hown.
    + intros a x Hax. heap_cases; eauto.
Qed.

(** Any sequence of moves and destructions succeeds and keeps the invariant:
    in particular no pointer is destroyed twice. *)
Lemma lifecycle_run_keeps (ls : list Lifecycle) :
  forall (hp : Heap) (w : World E),
  sole_owners hp (trace w) ->
  exists hp' w',
    lifecycle_run ls hp w = (Ok hp', w') /\ sole_owners hp' (trace w').
Proof.
  induction ls as [|l ls IH]; intros hp w Hinv.
  - exists hp, w. split; [reflexivity | exact Hinv].
  - cbn [lifecycle_run]. unfold bind.
    assert (Hstep : exists hp1 w1,
              lifecycle_step l hp w = (Ok hp1, w1) /\ sole_owners hp1 (trace w1)).
    { destruct l as [this other|this other|this]; cbn [lifecycle_step].
      - destruct (move_construct_keeps this other hp w Hinv) as [hp1 [Hs [Hi _]]]. eauto.
      - destruct (move_assign_keeps this other hp w Hinv) as [hp1 [w1 [Hs [Hi _]]]]. eauto.
      - destruct (destructor_keeps this hp w Hinv) as [hp1 [w1 [Hs [Hi _]]]]. eauto. }
    destruct Hstep as [hp1 [w1 [Hs Hi]]]. rewrite Hs. apply IH. exact Hi.
Qed.

End Lifetime.

(** C10. On a client whose handle is null every operation throws the
    null-handle error and leaves the world untouched (nothing is sent),
    except [isConnected], which answers [false]. Where every handle has one
    owner and none was destroyed yet, any sequence of move constructions,
    move assignments and destructions succeeds and keeps that so: no pointer
    is passed to [prohand_client_destroy] twice, and the null pointer never.
    The destructor leaves the handle null, does nothing on a null handle and
    is therefore idempotent; move assignment leaves its source null and gives
    the target the source's handle; self-assignment changes nothing. *)
Theorem null_handle_and_teardown {E : Type} `{Library E}
    (fuel : nat) (op : Operation) (c : ProHandClient) (w : World E)
    (ls : list Lifecycle) (hp : Heap) (this other : nat) :
  is_null (handle_ c) = true ->
  sole_owners hp (trace w) ->
  invoke fuel op c w =
    Some (match op with
          | OpIsConnected => Ok (VBool false)
          | _ => Throw (SdkError "Client handle is null")
          end, w)
  /\
  (exists hp' w', lifecycle_run ls hp w = (Ok hp', w') /\ sole_owners hp' (trace w'))
  /\
  (exists hp' w',
     destructor this hp w = (Ok hp', w') /\
     handle_ (hp' this) = None /\
     (handle_ (hp this) = None -> w' = w) /\
     destructor this hp' w' = (Ok hp', w'))
  /\
  (this <> other ->
   exists hp' w',
     move_assign this other hp w = (Ok hp', w') /\
     handle_ (hp' other) = None /\
     handle_ (hp' this) = handle_ (hp other))
  /\
  move_assign this this hp w = (Ok hp, w).
Proof.
  intros Hnull Hinv.
  split; [exact (null_handle_is_rejected fuel op c w Hnull)|].
  split; [exact (lifecycle_run_keeps ls hp w Hinv)|].
  split; [|split].
  - destruct (destructor_keeps this hp w Hinv) as [hp' [w' [Hd [_ [Hn Hsame]]]]].
    exists hp', w'. repeat split; try assumption.
    unfold destructor. rewrite Hn. reflexivity.
  - intros Hne.
    destruct (move_assign_keeps this other hp w Hinv) as [hp' [w' [Hm [_ [Hsrc _]]]]].
    exists hp', w'. destruct (Hsrc Hne). repeat split; assumption.
  - unfold move_assign. rewrite Nat.eqb_refl. reflexivity.
Qed.

(** ** Instances on the simulated host *)

Lemma waitForStreamingReady_ping_failure_witness :
  waitForStreamingReady 0 client0 default_timeout default_retryInterval
    (fresh failing_ping_host) =
  Some (Ok false,
        mkWorld failing_ping_host
          [EvCall (Some 0%nat) prohand_send_ping PROHAND_ERROR_CONNECTION]).
Proof.
  assert (Hfail : fst (prohand_call (handle_ client0) prohand_send_ping
                         (env (fresh failing_ping_host))) <> PROHAND_SUCCESS)
    by (vm_compute; discriminate).
  exact (waitForStreamingReady_ping_failure 0 client0 default_timeout
           default_retryInterval (fresh failing_ping_host) eq_refl Hfail).
Defined.

Lemma waitForStreamingReady_final_check_witness :
  let h := idle_host lose_all PROHAND_SUCCESS in
  let w1 := mkWorld h [EvCall (Some 0%nat) prohand_send_ping 0] in
  let w3 := mkWorld (sleep_for pollInterval (sleep_for settleDelay h))
              [EvCall (Some 0%nat) prohand_send_ping 0; EvSleep settleDelay;
               EvCall (Some 0%nat) prohand_is_running_state 0; EvSleep pollInterval] in
  waitForStreamingReady 5 client0 (ms 250) default_retryInterval (fresh h) =
    Some (Ok false,
          mkWorld (sleep_for pollInterval (sleep_for settleDelay h))
            (trace w3 ++ [EvCall (Some 0%nat) prohand_is_running_state 0]))
  /\ ms 250 <= clock_now w3 - clock_now w1
  /\ exists tl, trace w3 = trace w1 ++ EvSleep settleDelay :: tl /\ quiet tl.
Proof.
  intros h w1 w3.
  assert (Hloop : poll_loop 5 client0 (ms 250) default_retryInterval (clock_now w1)
                    (clock_now w1) (snd (sleep settleDelay w1)) = Some (Ok Break, w3))
    by (vm_compute; reflexivity).
  exact (waitForStreamingReady_final_check 5 client0 (ms 250) default_retryInterval
           (fresh h) w1 w3 eq_refl eq_refl Hloop).
Defined.

Lemma reassert_failure_is_swallowed_witness :
  let w := fresh failing_enable_host in
  (waitForStreamingReady 9 client0 (ms 400) (ms 100) w = None \/
   exists b w', waitForStreamingReady 9 client0 (ms 400) (ms 100) w = Some (Ok b, w'))
  /\
  poll_loop 9 client0 (ms 400) (ms 100) 0 0 w =
  poll_loop 8 client0 (ms 400) (ms 100) 0 0
    (mkWorld (sleep_for pollInterval
                (snd (host_call (Some 0%nat) (prohand_set_streaming_mode 1) failing_enable_host)))
       [EvCall (Some 0%nat) prohand_is_running_state 0;
        EvCall (Some 0%nat) (prohand_set_streaming_mode 1) PROHAND_ERROR_CONNECTION;
        EvSleep pollInterval])
  /\
  (forall res w3,
     poll_loop 9 client0 (ms 400) (ms 100) 0 0 w = Some (res, w3) ->
     res = Ok ReturnTrue \/ (res = Ok Break /\ ms 400 <= clock_now w3 - 0))
  /\
  exists b w', waitForStreamingReady 9 client0 (ms 400) (ms 100) w = Some (Ok b, w').
Proof.
  intros w.
  destruct (reassert_failure_is_swallowed 8 client0 (ms 400) (ms 100) 0 0 w eq_refl)
    as [_ [Hturn _]].
  destruct (reassert_failure_is_swallowed 9 client0 (ms 400) (ms 100) 0 0 w eq_refl)
    as [Hno [_ [Hexit Hret]]].
  split; [exact Hno|]. split; [|split; [exact Hexit|]].
  2:{ apply Hret; [exact HostMonotoneClock | lia | vm_compute; discriminate]. }
  apply Hturn.
  - vm_compute. reflexivity.
  - vm_compute. discriminate.
  - vm_compute. discriminate.
  - vm_compute. discriminate.
Defined.

Lemma wrong_arity_is_rejected_witness :
  let w := fresh (idle_host lose_none PROHAND_SUCCESS) in
  (exists e, invoke 0 (OpSendHandStreams [0; 0; 0] 0) client0 w = Some (Throw e, w)) /\
  (is_null (handle_ client0) = false ->
   invoke 0 (OpSendHandStreams [0; 0; 0] 0) client0 w =
     Some (Throw (SdkError hand_arity_message), w)).
Proof.
  intros w.
  assert (Hbad : Exists (fun len => len <> 20%nat)
                   (input_sizes (OpSendHandStreams [0; 0; 0] 0)))
    by (constructor; vm_compute; discriminate).
  exact (wrong_arity_is_rejected 0 (OpSendHandStreams [0; 0; 0] 0) client0 w 20
           eq_refl Hbad).
Defined.

Lemma failures_surface_as_exceptions_witness :
  exists e w',
    invoke 0 (OpSendWristStreams [0; 0] false) client0 (fresh refusing_host)
      = Some (Throw e, w').
Proof.
  destruct (failures_surface_as_exceptions 0 (OpSendWristStreams [0; 0] false) client0
              (fresh refusing_host)) as [_ [Hcall _]].
  apply (Hcall (prohand_send_wrist_streams [0; 0] false)).
  - reflexivity.
  - reflexivity.
  - vm_compute. discriminate.
Defined.

Lemma tryRecvStatus_outcomes_witness :
  (exists st,
     fst (tryRecvStatus client0 (fresh queued_host)) = Ok (Some st) /\
     List.length (rotaryPositions st) = 16%nat /\
     List.length (linearPositions st) = 2%nat /\
     nth 15 (rotaryPositions st) 0 = 15 /\
     nth 1 (linearPositions st) 0 = 101) /\
  fst (poll_status 3 client0 (fresh queued_host)) =
    [Ok (Some (hand_status_of one_status)); Ok None; Ok None].
Proof.
  destruct (tryRecvStatus_outcomes client0 (fresh queued_host) eq_refl)
    as [Hpos [_ [_ Hdrain]]].
  split.
  - assert (Hgt : 0 < fst (fst (prohand_try_recv_status (handle_ client0)
                                  (env (fresh queued_host)))))
      by (vm_compute; reflexivity).
    destruct (Hpos Hgt) as [st [Hst [Hr [Hl [Hrot [Hlin _]]]]]].
    exists st. rewrite Hst. repeat split; try assumption.
    + rewrite (Hrot 15%nat) by (vm_compute; reflexivity). reflexivity.
    + rewrite (Hlin 1%nat) by (vm_compute; reflexivity). reflexivity.
  - exact (Hdrain 3%nat queued_host []).
Defined.

Lemma heap0_sole_owners : sole_owners heap0 [].
Proof.
  unfold sole_owners, heap0. repeat split.
  - intros a b h Ha Hb.
    destruct (Nat.eqb_spec a 0); [|discriminate].
    destruct (Nat.eqb_spec b 0); [|discriminate]. congruence.
  - intros a h Ha [].
  - constructor.
  - intros [].
Qed.

Lemma null_handle_and_teardown_witness :
  let w := fresh (idle_host lose_none PROHAND_SUCCESS) in
  invoke 0 (OpSendHandStreams (repeat 0 20) 0) null_client w =
    Some (Throw (SdkError "Client handle is null"), w)
  /\
  exists hp' w',
    lifecycle_run [MoveAssign 1 0; Destruct 0; Destruct 1; Destruct 1] heap0 w = (Ok hp', w') /\
    sole_owners hp' (trace w').
Proof.
  intros w.
  destruct (null_handle_and_teardown 0 (OpSendHandStreams (repeat 0 20) 0) null_client w
              [MoveAssign 1 0; Destruct 0; Destruct 1; Destruct 1] heap0 0 1
              eq_refl heap0_sole_owners) as [Hnull [Hrun _]].
  split; [exact Hnull | exact Hrun].
Defined.

(** ** What the readiness wait puts on the trace *)

Section ReadinessEvents.
Context {E : Type} `{Library E}.
Variable c : ProHandClient.
Hypothesis Hvalid : is_null (handle_ c) = false.

(** A property of events that the events of the wait have: pings, status
    polls, enable commands and sleeps. *)
Variable P : Event -> Prop.
Hypothesis P_ping : forall r, P (EvCall (handle_ c) prohand_send_ping r).
Hypothesis P_poll : forall r, P (EvCall (handle_ c) prohand_is_running_state r).
Hypothesis P_enable : forall r, P (EvCall (handle_ c) (prohand_set_streaming_mode 1) r).
Hypothesis P_sleep : forall d, P (EvSleep d).

Lemma poll_loop_events (timeout retryInterval start : Z) :
  forall (fuel : nat) (lastRetry : Z) (w w3 : World E) (res : Result LoopExit),
  poll_loop fuel c timeout retryInterval start lastRetry w = Some (res, w3) ->
  exists tl, trace w3 = trace w ++ tl /\ Forall P tl.
Proof.
  induction fuel as [|fuel IH]; intros lastRetry w w3 res Hrun; [discriminate|].
  cbn [poll_loop] in Hrun.
  destruct (clock_now w - start >=? timeout).
  { inversion Hrun; subst. exists []. split; [symmetry; apply app_nil_r | constructor]. }
  rewrite (isRunningState_valid c w Hvalid) in Hrun.
  set (w1 := mkWorld _ _) in Hrun.
  assert (Hw1 : exists t1, trace w1 = trace w ++ t1 /\ Forall P t1).
  { eexists. split; [reflexivity|]. repeat constructor. apply P_poll. }
  destruct (_ =? 1).
  { inversion Hrun; subst. exact Hw1. }
  assert (Hw2 : forall lw,
    lw = (if clock_now w - lastRetry >=? retryInterval
          then reassert c (clock_now w) lastRetry w1
          else (lastRetry, w1)) ->
    exists t2, trace (snd lw) = trace w ++ t2 /\ Forall P t2).
  { intros lw Hlw. destruct Hw1 as [t1 [Ht1 Hp1]].
    destruct (clock_now w - lastRetry >=? retryInterval); subst lw.
    - destruct (reassert_trace c (clock_now w) lastRetry w1 Hvalid) as [r Hr].
      rewrite Hr, Ht1, <- app_assoc. eexists. split; [reflexivity|].
      apply Forall_app. split; [exact Hp1|]. repeat constructor. apply P_enable.
    - cbn [snd]. eauto. }
  unfold reassert in Hw2.
  match type of Hrun with
  | (let '(lr, w2) := ?lw in _) = _ =>
      specialize (Hw2 lw eq_refl); destruct lw as [lr w2]
  end.
  cbn [snd] in Hw2. destruct Hw2 as [t2 [Ht2 Hp2]].
  destruct (timeout - (clock_now w - start) >? 0).
  - cbn [sleep] in Hrun. apply IH in Hrun. destruct Hrun as [tl [Htl Hpl]].
    cbn [trace] in Htl. rewrite Ht2 in Htl. rewrite <- !app_assoc in Htl.
    eexists. split; [exact Htl|].
    apply Forall_app. split; [exact Hp2|].
    apply Forall_app. split; [|exact Hpl]. repeat constructor. apply P_sleep.
  - inversion Hrun; subst. eauto.
Qed.

Lemma waitForStreamingReady_events (fuel : nat) (timeout retryInterval : Z)
    (w w' : World E) (res : Result bool) :
  waitForStreamingReady fuel c timeout retryInterval w = Some (res, w') ->
  exists tl, trace w' = trace w ++ tl /\ Forall P tl.
Proof.
  rewrite (waitForStreamingReady_valid fuel c timeout retryInterval w Hvalid).
  rewrite (sendPing_valid c w Hvalid).
  destruct (prohand_call (handle_ c) prohand_send_ping (env w)) as [r s'].
  set (w0 := mkWorld s' _).
  assert (Hw0 : exists t0, trace w0 = trace w ++ t0 /\ Forall P t0).
  { eexists. split; [reflexivity|]. repeat constructor. apply P_ping. }
  pose proof (checkResult_same r "sendPing" w0) as Hsame.
  destruct (checkResult r "sendPing" w0) as [[u|e] w1]; cbn [snd] in Hsame; subst w1.
  2:{ intros Hrun. inversion Hrun; subst. exact Hw0. }
  destruct Hw0 as [t0 [Ht0 Hp0]].
  destruct (poll_loop fuel c timeout retryInterval (clock_now w0) (clock_now w0) _)
    as [[r3 w3]|] eqn:Hloop; [|discriminate].
  apply poll_loop_events in Hloop. destruct Hloop as [tl [Htl Hpl]].
  cbn [trace] in Htl. rewrite Ht0 in Htl. rewrite <- !app_assoc in Htl.
  assert (Hw3 : exists t3, trace w3 = trace w ++ t3 /\ Forall P t3).
  { eexists. split; [exact Htl|].
    apply Forall_app. split; [exact Hp0|].
    apply Forall_app. split; [|exact Hpl]. repeat constructor. apply P_sleep. }
  destruct r3 as [[|]|e]; intros Hrun.
  - inversion Hrun; subst. exact Hw3.
  - rewrite (isRunningState_valid c w3 Hvalid) in Hrun. inversion Hrun; subst.
    destruct Hw3 as [t3 [Ht3 Hp3]]. cbn [trace]. rewrite Ht3, <- app_assoc.
    eexists. split; [reflexivity|].
    apply Forall_app. split; [exact Hp3|]. repeat constructor. apply P_poll.
  - inversion Hrun; subst. exact Hw3.
Qed.

End ReadinessEvents.

(** ** Streaming is gated on readiness in the demos *)

Ltac emits_nil := exists []; split; [symmetry; apply app_nil_r | constructor].

Ltac emits_op HP :=
  intros w; unfold_ops; unfold call, checkResult, sleep, throw, ret;
  repeat match goal with
         | |- context [prohand_call ?p ?a ?s] => destruct (prohand_call p a s)
         | |- context [if ?b then _ else _] => destruct b
         end;
  cbn [snd trace];
  first [ emits_nil
        | eexists; split; [reflexivity | repeat constructor; apply HP] ].

Section Emits.
Context {E : Type} `{Library E}.
Variable P : Event -> Prop.

Lemma emits_ret {A} (a : A) : emits (E:=E) P (ret a).
Proof. intros w. emits_nil. Qed.

Lemma emits_throw {A} (e : SdkException) : emits (E:=E) (A:=A) P (throw e).
Proof. intros w. emits_nil. Qed.

Lemma emits_steady_now : emits P steady_now.
Proof. intros w. emits_nil. Qed.

Lemma emits_sleep (d : Z) : (forall d', P (EvSleep d')) -> emits P (sleep d).
Proof. intros HP w. eexists. split; [reflexivity | repeat constructor; apply HP]. Qed.

Lemma emits_bind {A B} (m : M E A) (k : A -> M E B) :
  emits P m -> (forall a, emits P (k a)) -> emits P (bind m k).
Proof.
  intros Hm Hk w. unfold bind. destruct (Hm w) as [t1 [Ht1 Hp1]].
  destruct (m w) as [[a|e] w1]; cbn [snd] in *.
  - destruct (Hk a w1) as [t2 [Ht2 Hp2]]. rewrite Ht2, Ht1, <- app_assoc.
    eexists. split; [reflexivity | apply Forall_app; split; assumption].
  - eauto.
Qed.

Lemma emits_sendPing (c : ProHandClient) :
  (forall r, P (EvCall (handle_ c) prohand_send_ping r)) -> emits P (sendPing c).
Proof. intros HP. emits_op HP. Qed.

Lemma emits_setStreamingMode (c : ProHandClient) (b : bool) :
  (forall a r, P (EvCall (handle_ c) (prohand_set_streaming_mode a) r)) ->
  emits P (setStreamingMode c b).
Proof. intros HP. emits_op HP. Qed.

Lemma emits_sendWristStreams (c : ProHandClient) (positions : list float32) (u : bool) :
  (forall r, P (EvCall (handle_ c) (prohand_send_wrist_streams positions u) r)) ->
  emits P (sendWristStreams c positions u).
Proof. intros HP. emits_op HP. Qed.

Lemma emits_sendHandStreams (c : ProHandClient) (positions : list float32) (t : float32) :
  (forall r, P (EvCall (handle_ c) (prohand_send_hand_streams positions t) r)) ->
  emits P (sendHandStreams c positions t).
Proof. intros HP. emits_op HP. Qed.

Lemma emits_new (a b c d : string) :
  (forall p, P (EvCreate p)) -> emits P (ProHandClient_new a b c d).
Proof.
  intros HP w. unfold ProHandClient_new, bind, create, throw, ret.
  destruct (prohand_client_create a b c d (env w)) as [p s'].
  destruct (is_null p); cbn [snd trace];
    (eexists; split; [reflexivity | repeat constructor; apply HP]).
Qed.

Lemma emits_destructor (this : nat) (hp : Heap) :
  (forall p, P (EvDestroy p)) -> emits P (destructor this hp).
Proof.
  intros HP w. unfold destructor, bind, destroy, ret.
  destruct (negb (is_null (handle_ (hp this)))); cbn [snd trace].
  - eexists. split; [reflexivity | repeat constructor; apply HP].
  - emits_nil.
Qed.

Lemma emitsF_lift {A} (m : M E A) : emits P m -> emitsF P (liftF m).
Proof.
  intros Hm w r w' Hrun. unfold liftF in Hrun. inversion Hrun as [Heq].
  specialize (Hm w). rewrite Heq in Hm. exact Hm.
Qed.

Lemma emitsF_bind {A B} (m : MF E A) (k : A -> MF E B) :
  emitsF P m -> (forall a, emitsF P (k a)) -> emitsF P (bindF m k).
Proof.
  intros Hm Hk w r w' Hrun. unfold bindF in Hrun.
  destruct (m w) as [[[a|e] w1]|] eqn:Hmw; [| |discriminate].
  - destruct (Hm w _ _ Hmw) as [t1 [Ht1 Hp1]].
    destruct (Hk a w1 r w' Hrun) as [t2 [Ht2 Hp2]].
    rewrite Ht2, Ht1, <- app_assoc.
    eexists. split; [reflexivity | apply Forall_app; split; assumption].
  - inversion Hrun; subst. exact (Hm w _ _ Hmw).
Qed.

Lemma emitsF_for_each {A} (xs : list A) (body : A -> MF E unit) :
  (forall x, emitsF P (body x)) -> emitsF P (for_each xs body).
Proof.
  intros Hbody. induction xs as [|x xs IH]; cbn [for_each].
  - apply emitsF_lift, emits_ret.
  - apply emitsF_bind; [apply Hbody | intros _; exact IH].
Qed.

End Emits.

Ltac emits_auto :=
  repeat first
    [ apply emitsF_for_each; intros ?
    | apply emitsF_lift
    | apply emits_ret
    | apply emits_throw
    | apply emits_steady_now
    | apply emits_sleep; intros; first [exact I | reflexivity]
    | apply emits_sendPing; intros; first [exact I | reflexivity]
    | apply emits_setStreamingMode; intros; first [exact I | reflexivity]
    | apply emits_sendWristStreams; intros; first [exact I | reflexivity]
    | apply emits_sendHandStreams; intros; first [exact I | reflexivity]
    | match goal with
      | |- emits _ (if ?b then _ else _) => destruct b
      | |- emitsF _ (if ?b then _ else _) => destruct b
      | |- emitsF _ (match ?x with Some _ => _ | None => _ end) => destruct x
      | |- emitsF _ (bindF _ _) => apply emitsF_bind; [|intros ?]
      | |- emits _ (bind _ _) => apply emits_bind; [|intros ?]
      end ].

Section Gate.
Context {E : Type} `{Library E}.

Lemma no_stream_app (tr tl : list Event) :
  no_stream tr -> Forall not_stream tl -> no_stream (tr ++ tl).
Proof. intros Htr Htl. apply Forall_app. split; assumption. Qed.

Lemma extends_refl (w : World E) : extends w w.
Proof. exists []. symmetry. apply app_nil_r. Qed.

Lemma extends_more (w0 w w' : World E) (tl : list Event) :
  extends w0 w -> trace w' = trace w ++ tl -> extends w0 w'.
Proof.
  intros [t0 Ht0] Htr. exists (t0 ++ tl). rewrite Htr, Ht0, <- app_assoc. reflexivity.
Qed.

(** Events that are not streaming sends keep a run gated. *)
Lemma gated_run_more (w0 w w' : World E) (tl : list Event) :
  gated_run w0 w -> trace w' = trace w ++ tl -> Forall not_stream tl -> gated_run w0 w'.
Proof.
  intros [Hq | [fuel [c [t [r [w1 [wr [tl0 [Hpre [Hwait [Hend [Hns Hext]]]]]]]]]]]] Htr Htl.
  - left. rewrite Htr. apply no_stream_app; assumption.
  - right. exists fuel, c, t, r, w1, wr, tl0. repeat split; try assumption.
    exact (extends_more wr w w' tl Hext Htr).
Qed.

Lemma gatedF_quiet {A} (m : MF E A) : emitsF not_stream m -> gatedF m.
Proof.
  intros Hm w0 w r w' Hpre Hns Hrun. left.
  destruct (Hm w r w' Hrun) as [tl [Htr Htl]]. rewrite Htr.
  apply no_stream_app; assumption.
Qed.

Lemma gatedF_quiet_then {A B} (m : MF E A) (k : A -> MF E B) :
  emitsF not_stream m -> (forall a, gatedF (k a)) -> gatedF (bindF m k).
Proof.
  intros Hm Hk w0 w r w' Hpre Hns Hrun. unfold bindF in Hrun.
  destruct (m w) as [[[a|e] w1]|] eqn:Hmw; [| |discriminate].
  - destruct (Hm w _ _ Hmw) as [tl [Htr Htl]].
    apply (Hk a w0 w1 r w'); [| |exact Hrun].
    + exact (extends_more w0 w w1 tl Hpre Htr).
    + rewrite Htr. apply no_stream_app; assumption.
  - inversion Hrun; subst. exact (gatedF_quiet m Hm w0 w _ _ Hpre Hns Hmw).
Qed.

(** When [waitForStreamingReady] returns [true], the last thing it did was a
    status poll that reported Running. *)
Lemma waitForStreamingReady_true_poll (fuel : nat) (c : ProHandClient)
    (timeout retryInterval : Z) (w wr : World E) :
  is_null (handle_ c) = false ->
  waitForStreamingReady fuel c timeout retryInterval w = Some (Ok true, wr) ->
  exists tl0, trace wr = tl0 ++ [EvCall (handle_ c) prohand_is_running_state 1].
Proof.
  intros Hh. rewrite (waitForStreamingReady_valid fuel c timeout retryInterval w Hh).
  destruct (sendPing c w) as [[u|e] w1]; [|discriminate].
  destruct (poll_loop fuel c timeout retryInterval (clock_now w1) (clock_now w1) _)
    as [[r3 w3]|] eqn:Hloop; [|discriminate].
  destruct (poll_loop_exit c timeout retryInterval (clock_now w1) Hh _ _ _ _ _ Hloop)
    as [tl [Htr [[Hres _] | [Hres [tl0 [Htl _]]]]]]; subst r3; intros Hrun.
  - rewrite (isRunningState_valid c w3 Hh) in Hrun.
    destruct (_ =? 1) eqn:H1; [|discriminate].
    apply Z.eqb_eq in H1. inversion Hrun; subst. cbn [trace]. rewrite H1.
    eexists. reflexivity.
  - inversion Hrun; subst. rewrite Htr, app_assoc. eexists. reflexivity.
Qed.

(** The gate itself: the streaming part runs only in the branch where
    [waitForStreamingReady] has returned [true]. *)
Lemma gatedF_gate {A} (fuel : nat) (c : ProHandClient) (timeout retryInterval : Z)
    (fail stream : MF E A) :
  is_null (handle_ c) = false ->
  emitsF not_stream fail ->
  emitsF any_event stream ->
  gatedF (ready <-- waitForStreamingReady fuel c timeout retryInterval ;;
          if negb ready then fail else stream).
Proof.
  intros Hh Hfail Hstream w0 w r w' Hpre Hns Hrun. unfold bindF in Hrun.
  destruct (waitForStreamingReady fuel c timeout retryInterval w)
    as [[[ready|e] w1]|] eqn:Hwait; [| |discriminate].
  - assert (Hq : no_stream (trace w1)).
    { destruct (waitForStreamingReady_events c Hh not_stream
                  ltac:(intros; reflexivity) ltac:(intros; reflexivity)
                  ltac:(intros; reflexivity) ltac:(intros; reflexivity)
                  fuel timeout retryInterval w w1 _ Hwait) as [tl [Htr Htl]].
      rewrite Htr. apply no_stream_app; assumption. }
    destruct ready; cbn [negb] in Hrun.
    + right.
      destruct (waitForStreamingReady_true_poll fuel c timeout retryInterval w w1 Hh Hwait)
        as [tl0 Hend].
      exists fuel, c, timeout, retryInterval, w, w1, tl0.
      repeat split; try assumption.
      destruct (Hstream w1 r w' Hrun) as [tl [Htr _]]. exists tl. exact Htr.
    + left. destruct (Hfail w1 r w' Hrun) as [tl [Htr Htl]].
      rewrite Htr. apply no_stream_app; assumption.
  - exfalso.
    destruct (waitForStreamingReady_no_throw fuel c timeout retryInterval w Hh)
      as [Hnone | [b [w2 Hsome]]]; congruence.
Qed.

Lemma gatedF_with_client (eps : Endpoints) (body : ProHandClient -> MF E Z) :
  (forall c, is_null (handle_ c) = false -> gatedF (body c)) ->
  gatedF (with_client eps body).
Proof.
  intros Hbody w0 w r w' Hpre Hns Hrun. unfold with_client, bindF, liftF in Hrun.
  destruct (emits_new not_stream (commandEndpoint eps) (statusEndpoint eps)
              (handStreamingEndpoint eps) (wristStreamingEndpoint eps)
              ltac:(intros; reflexivity) w) as [t1 [Ht1 Hp1]].
  assert (Hvalid : forall client w1,
            ProHandClient_new (commandEndpoint eps) (statusEndpoint eps)
              (handStreamingEndpoint eps) (wristStreamingEndpoint eps) w = (Ok client, w1) ->
            is_null (handle_ client) = false).
  { intros client w1. unfold ProHandClient_new, bind, create, throw, ret.
    destruct (prohand_client_create _ _ _ _ (env w)) as [p s'].
    destruct (is_null p) eqn:Hp; [discriminate|].
    intros Heq. inversion Heq; subst. exact Hp. }
  destruct (ProHandClient_new _ _ _ _ w) as [[client|e] w1] eqn:Hnew; cbn [snd] in Ht1.
  - specialize (Hvalid client w1 eq_refl).
    destruct (body client w1) as [[r2 w2]|] eqn:Hb; [|discriminate].
    inversion Hrun; subst.
    destruct (emits_destructor not_stream 0 (fun _ => client)
                ltac:(intros; reflexivity) w2) as [t3 [Ht3 Hp3]].
    eapply gated_run_more; [|exact Ht3 | exact Hp3].
    apply (Hbody client Hvalid w0 w1 r w2); [| |exact Hb].
    + exact (extends_more w0 w w1 t1 Hpre Ht1).
    + rewrite Ht1. apply no_stream_app; assumption.
  - inversion Hrun; subst. left. rewrite Ht1. apply no_stream_app; assumption.
Qed.

Lemma try_main_gated (body : MF E Z) :
  gatedF body ->
  forall w code w', no_stream (trace w) -> try_main body w = Some (code, w') -> gated_run w w'.
Proof.
  intros Hbody w code w' Hns Hrun. unfold try_main in Hrun.
  destruct (body w) as [[[c|e] w1]|] eqn:Hb; [| |discriminate];
    inversion Hrun; subst; exact (Hbody w w _ _ (extends_refl w) Hns Hb).
Qed.

Variable cyclic_hand_pose cyclic_wrist_pose : Z -> list float32.
Variable poseFromYaml : string -> option (list float32 * list float32).
Variable deg_to_rad : Z -> float32.

Lemma cyclic_loop_emits (client : ProHandClient) (excludeWrist : bool)
    (duration period startTime : Z) :
  forall (fuel : nat) (iteration : Z),
  emitsF any_event
    (cyclic_loop cyclic_hand_pose cyclic_wrist_pose fuel client excludeWrist
       duration period startTime iteration).
Proof.
  induction fuel as [|fuel IH]; intros iteration; cbn [cyclic_loop].
  - intros w r w' Hrun. discriminate.
  - emits_auto. apply IH.
Qed.

Lemma streamPose_loop_emits (client : ProHandClient)
    (positions wristPositions : list float32) (period deadline : Z) (torque : float32) :
  forall (fuel : nat),
  emitsF any_event
    (streamPose_loop fuel client positions wristPositions period deadline torque).
Proof.
  induction fuel as [|fuel IH]; cbn [streamPose_loop].
  - intros w r w' Hrun. discriminate.
  - emits_auto. apply IH.
Qed.

End Gate.

Ltac gate_prelude :=
  repeat (apply gatedF_quiet_then; [solve [emits_auto] | intros ?]).

(** C9. In every run of a streaming demo that starts from a trace without
    streaming sends, either no streaming send is made at all, or
    [waitForStreamingReady] returned [true] (on a status poll that reported
    Running) at a point of the run before which no streaming send was made. *)
Theorem demos_stream_only_when_ready {E : Type} `{Library E}
    (fuel : nat) (d : Demo) (w w' : World E) (code : Z) :
  no_stream (trace w) ->
  run_demo fuel d w = Some (code, w') ->
  gated_run w w'.
Proof.
  intros Hns Hrun.
  destruct d as [hand wrist help eps excludeWrist duration period
                |pose help yaml_loaded eps period torqueLevel
                |help eps
                |deg_to_rad help eps delay cycles];
    cbn [run_demo] in Hrun;
    unfold cyclic_motion_main, kapandji_main, kapandji_main_without_yaml,
           test_hand_main in Hrun;
    (destruct help; [inversion Hrun; subst; left; exact Hns|]);
    refine (try_main_gated _ _ w code w' Hns Hrun).
  - apply gatedF_with_client. intros c Hc. gate_prelude.
    apply gatedF_gate; [exact Hc | emits_auto | emits_auto].
    apply cyclic_loop_emits.
  - gate_prelude. apply gatedF_with_client. intros c Hc. gate_prelude.
    apply gatedF_gate; [exact Hc | emits_auto | emits_auto].
    unfold streamPose. emits_auto. apply streamPose_loop_emits.
  - apply gatedF_with_client. intros c Hc. apply gatedF_quiet. emits_auto.
  - apply gatedF_with_client. intros c Hc. gate_prelude.
    apply gatedF_gate; [exact Hc | emits_auto | emits_auto].
    unfold test_hand_cycle. emits_auto.
Qed.

Lemma demos_stream_only_when_ready_witness :
  exists w',
    run_demo 50 short_cyclic_motion (fresh (idle_host lose_none PROHAND_SUCCESS)) = Some (0, w') /\
    gated_run (fresh (idle_host lose_none PROHAND_SUCCESS)) w'.
Proof.
  eexists. split.
  - vm_compute. reflexivity.
  - refine (demos_stream_only_when_ready 50 short_cyclic_motion
              (fresh (idle_host lose_none PROHAND_SUCCESS)) _ 0 _ _).
    + constructor.
    + vm_compute. reflexivity.
Defined.

